(** * censorscope: the Lua sandbox (src/sandbox.c)

    A shallow embedding of the sandbox of censorscope: the allocator that
    charges every allocation of the VM to a byte budget, the debug hook that
    stops a script after a number of instructions, the check that keeps
    precompiled chunks out, the extension of [package.path], and the
    load / bind-environment / call protocol of [sandbox_run].

    The C functions are written as state-passing functions.  What the program
    calls but does not define (libc, the Lua 5.1 C API, the logging sink) is
    modelled after its documentation, and whatever the outside world decides
    (file contents, the success of [malloc] and of the creation of the VM,
    what the parser says of a file, what a script does) is a field of the
    [host] record.

    Two limits of the model.  The API calls of [sandbox_init] and
    [sandbox_run] that allocate inside the VM are modelled on their normal
    return: when such an allocation fails, Lua raises an error outside any
    protected call, the panic function runs and the process exits.  And of
    the debug hooks only the count hook is modelled, the only one the program
    sets. *)

From Stdlib Require Import ZArith String Ascii List Lia Bool.
From stdpp Require Import base option list gmap strings pretty.

Local Open Scope string_scope.
Local Open Scope list_scope.
Local Open Scope Z_scope.

(** ** Machine integers *)

(** [size_t] on the LP64 targets the program is built for: 64 bits, unsigned,
    arithmetic modulo [2^64]. *)
Definition SIZE_BITS : Z := 64.
Definition SIZE_MAX : Z := 2 ^ SIZE_BITS - 1.
Definition size_wrap (z : Z) : Z := z mod 2 ^ SIZE_BITS.
Definition size_add (a b : Z) : Z := size_wrap (a + b).
Definition size_sub (a b : Z) : Z := size_wrap (a - b).
Definition is_size_t (z : Z) : Prop := 0 <= z <= SIZE_MAX.

(** [int]: 32 bits, signed. *)
Definition INT_MAX : Z := 2 ^ 31 - 1.

(** Pointers are addresses; [NULL] is address 0. *)
Definition NULL : Z := 0.

(** ** The error sink (logging.h)

    [log_error fmt, args...] appends one entry.  An argument is a C string or
    a null pointer; the text of [%m] is the host's and is not recorded. *)
Record log_entry := LogError { le_format : string; le_args : list (option string) }.

(** ** QuotaAllocator: [l_alloc_restricted] *)

Module Quota.

(** Calls into the C library made by the allocator, in program order. *)
Inductive libc_call :=
| Call_free (p : Z)
| Call_realloc (p : Z) (n : Z).

Section Allocator.

(** The underlying allocator: some heap, [free] and [realloc] on it. *)
Context {heap : Type}.
Variable c_free : heap -> Z -> heap.
Variable c_realloc : heap -> Z -> Z -> Z * heap.

(** What a call of the allocator can read and change: the counter behind
[ud], the C heap, and the record of library calls and log entries. *)
Record state := State {
available : Z;
c_heap : heap;
calls : list libc_call;
log : list log_entry
}.

Definition l_alloc_restricted (st : state) (ptr osize nsize : Z) : Z * state :=
if nsize =? 0 then
(* free *)
(NULL,
 {| available := size_add (available st) osize;
    c_heap := c_free (c_heap st) ptr;
    calls := calls st ++ [Call_free ptr];
    log := log st |})
else
(* malloc *)
if (nsize >? osize) && (available st <? nsize - osize) then
  (NULL,
   {| available := available st;
      c_heap := c_heap st;
      calls := calls st;
      log := log st ++ [LogError "Out of memory!" []] |})
else
  let '(ptr', h') := c_realloc (c_heap st) ptr nsize in
  let st' := {| available := available st;
                c_heap := h';
                calls := calls st ++ [Call_realloc ptr nsize];
                log := log st |} in
  if ptr' =? NULL then (ptr', st')
  else if nsize >? osize then
    (ptr', {| available := size_sub (available st) (nsize - osize);
              c_heap := h';
              calls := calls st';
              log := log st |})
  else
    (ptr', {| available := size_add (available st) (osize - nsize);
              c_heap := h';
              calls := calls st';
              log := log st |}).

(** One request of the VM: the block, its old size and the size wanted. *)
Record request := Request { rq_ptr : Z; rq_osize : Z; rq_nsize : Z }.

(** One served request: the state before, the request, the pointer returned
and the state after. *)
Record served := Served {
sv_before : state;
sv_request : request;
sv_result : Z;
sv_after : state
}.

(** The VM issues its requests one after the other. *)
Fixpoint serve (st : state) (reqs : list request) : list served :=
match reqs with
| [] => []
| rq :: reqs' =>
  let '(p, st') := l_alloc_restricted st (rq_ptr rq) (rq_osize rq) (rq_nsize rq) in
  Served st rq p st' :: serve st' reqs'
end.

(** [sandbox_init] starts the counter at [max_memory]. *)
Definition initial (max_memory : Z) (h : heap) : state :=
{| available := max_memory; c_heap := h; calls := []; log := [] |}.

End Allocator.

(** A small arena for examples: [n] bytes are left, a block's address is the
  number of bytes left when it was handed out plus one, nothing is ever
  given back. *)
Definition arena_free (left : Z) (_ : Z) : Z := left.
Definition arena_realloc (left : Z) (_ : Z) (n : Z) : Z * Z :=
if n <=? left then (left + 1, left - n) else (NULL, left).

End Quota.


(** ** C strings and stdio *)

(** A [char *] is read up to its first NUL. *)
Fixpoint c_str (s : string) : string :=
  match s with
  | EmptyString => EmptyString
  | String a s' => if Ascii.eqb a Ascii.zero then EmptyString else String a (c_str s')
  end.

Definition strlen (s : string) : Z := Z.of_nat (String.length (c_str s)).

(** Conversion of a [size_t] to [int] as gcc and clang do it. *)
Definition to_int (z : Z) : Z := (z + 2 ^ 31) mod 2 ^ 32 - 2 ^ 31.

(** [snprintf (buf, n, "%s;%s", a, b)]: at most [n - 1] characters are
    written, then the terminating NUL. *)
Definition snprintf_s_semi_s (n : Z) (a b : string) : string :=
  substring 0 (Z.to_nat (n - 1)) (c_str a ++ ";" ++ c_str b)%string.

(** A file as [fopen], [fgetc] and [fclose] see it. *)
Record file := File {
  f_bytes : list Byte.byte;
  f_read_fails : bool;
  f_close_fails : bool
}.

Definition EOF : Z := -1.

(** [fgetc] on a stream just opened: the first byte as an [unsigned char]
    converted to [int], or [EOF] at the end of the file or on a read error. *)
Definition fgetc_first (f : file) : Z :=
  if f_read_fails f then EOF
  else match f_bytes f with
       | [] => EOF
       | b :: _ => Z.of_N (Byte.to_N b)
       end.

(** ** The Lua 5.1 VM as the C API shows it *)

Inductive lua_value :=
| LNil
| LBoolean (b : bool)
| LNumber (n : Z)
| LString (s : string)
| LTable (r : nat)
| LFunction (r : nat)
| LCFunction (name : string).

(** A compiled chunk is known by the name of the file it was loaded from. *)
Definition chunk := string.

(** Tables are indexed by strings here: no other key is used by the program. *)
Abbreviation table := (gmap string lua_value).

(** A Lua closure: its code and the table its globals are resolved in. *)
Record closure := Closure { cl_code : chunk; cl_env : nat }.

(** Tables and closures are objects with identity: values refer to them by
    their index in the heap. *)
Record heap := Heap { tables : list table; closures : list closure }.

(** The table of globals is the first table of every VM. *)
Definition GLOBALS : nat := 0%nat.

Definition LUA_ERRRUN : Z := 2.
Definition LUA_ERRSYNTAX : Z := 3.
Definition LUA_ERRMEM : Z := 4.
Definition LUA_ERRERR : Z := 5.
Definition LUA_ERRFILE : Z := 6.

Inductive lua_status := ErrRun | ErrSyntax | ErrMem | ErrErr | ErrFile.

Definition status_code (s : lua_status) : Z :=
  match s with
  | ErrRun => LUA_ERRRUN
  | ErrSyntax => LUA_ERRSYNTAX
  | ErrMem => LUA_ERRMEM
  | ErrErr => LUA_ERRERR
  | ErrFile => LUA_ERRFILE
  end.

(** *** Debug hooks *)

Definition LUA_HOOKCALL : Z := 0.
Definition LUA_HOOKRET : Z := 1.
Definition LUA_HOOKLINE : Z := 2.
Definition LUA_HOOKCOUNT : Z := 3.
Definition LUA_MASKCOUNT : Z := Z.shiftl 1 LUA_HOOKCOUNT.

Record lua_Debug := Debug { event : Z }.

(** A C function called by the VM returns, or raises a Lua error (a
    [longjmp] to the enclosing protected call). *)
Inductive c_outcome :=
| Returns
| Raises (e : lua_value).

(** A hook sees the VM, of which only the current position of the running
    function matters here (the text [luaL_where (L, 1)] yields), and the
    activation record. *)
Definition lua_Hook := string -> lua_Debug -> c_outcome.

(** [luaL_error (L, msg)]: the message, with the position in front, is
    raised as an error. *)
Definition luaL_error (where_ : string) (msg : string) : c_outcome :=
  Raises (LString (where_ ++ msg)).

(** *** Running Lua code

    What a script does is the host's business: for the VM it is a machine
    with configurations of some type, entered from a closure and advanced
    one instruction at a time. *)
Inductive vm_step (conf : Type) :=
| VmNext (c : conf)
| VmReturn (v : lua_value) (h : heap)
| VmError (s : lua_status) (e : lua_value) (h : heap).
Arguments VmNext {conf} c.
Arguments VmReturn {conf} v h.
Arguments VmError {conf} s e h.

Inductive vm_end :=
| Returned (v : lua_value) (h : heap)
| Failed (s : lua_status) (e : lua_value) (h : heap).

Section Execute.

Context {conf : Type}.
Variable step : conf -> vm_step conf.
Variable heap_at : conf -> heap.
Variable where_at : conf -> string.

Variable hook : option lua_Hook.
Variable hookmask : Z.
Variable basehookcount : Z.

(** The main loop of the interpreter, [luaV_execute]: before each
    instruction, with a count hook set, the counter is decremented and at 0
    it is reset and the hook is called with [LUA_HOOKCOUNT]; an error
    raised by the hook ends the run like any other error.  [None]: the
    script is still running after [fuel] instructions.  The counter is
    returned with the result. *)
Fixpoint luaV_execute (fuel : nat) (hookcount : Z) (c : conf)
  : option (vm_end * Z) :=
  match fuel with
  | O => None
  | S fuel' =>
      let counting := negb (Z.land hookmask LUA_MASKCOUNT =? 0) in
      let hookcount' := if counting then hookcount - 1 else hookcount in
      let fire := counting && (hookcount' =? 0) in
      let hookcount'' := if fire then basehookcount else hookcount' in
      let trap :=
        if fire then
          match hook with
          | Some f => f (where_at c) (Debug LUA_HOOKCOUNT)
          | None => Returns
          end
        else Returns in
      match trap with
      | Raises e => Some (Failed ErrRun e (heap_at c), hookcount'')
      | Returns =>
          match step c with
          | VmNext c' => luaV_execute fuel' hookcount'' c'
          | VmReturn v h => Some (Returned v h, hookcount'')
          | VmError s e h => Some (Failed s e h, hookcount'')
          end
      end
  end.

End Execute.

(** *** The state of one VM *)

Record lua_State := LuaState {
  l_stack : list lua_value;        (* the top of the stack is the head *)
  l_heap : heap;
  l_quota : option Z;              (* the budget the allocator started with *)
  l_hook : option lua_Hook;
  l_hookmask : Z;
  l_basehookcount : Z;
  l_hookcount : Z
}.

Definition set_stack (L : lua_State) (st : list lua_value) : lua_State :=
  LuaState st (l_heap L) (l_quota L) (l_hook L) (l_hookmask L)
    (l_basehookcount L) (l_hookcount L).

Definition set_heap (L : lua_State) (h : heap) : lua_State :=
  LuaState (l_stack L) h (l_quota L) (l_hook L) (l_hookmask L)
    (l_basehookcount L) (l_hookcount L).

Definition push (v : lua_value) (L : lua_State) : lua_State :=
  set_stack L (v :: l_stack L).

(** A stack index, as a position from the top: [-1] is the top, [1] the
    bottom. *)
Definition index2pos (L : lua_State) (idx : Z) : option nat :=
  let n := Z.of_nat (length (l_stack L)) in
  if (idx <? 0) && (- idx <=? n) then Some (Z.to_nat (- idx - 1))
  else if (0 <? idx) && (idx <=? n) then Some (Z.to_nat (n - idx))
  else None.

Definition index2adr (L : lua_State) (idx : Z) : option lua_value :=
  pos ← index2pos L idx; l_stack L !! pos.

(** Reading and writing a field of a table; storing [nil] removes the key. *)
Definition rawget (h : heap) (r : nat) (k : string) : lua_value :=
  match tables h !! r with
  | Some t => default LNil (t !! k)
  | None => LNil
  end.

Definition rawset (h : heap) (r : nat) (k : string) (v : lua_value) : heap :=
  match tables h !! r with
  | Some t =>
      let t' := match v with LNil => delete k t | _ => <[k := v]> t end in
      Heap (<[r := t']> (tables h)) (closures h)
  | None => h
  end.

(** ** The world of the sandbox *)

(** Calls the program makes into libc and the Lua C API, in program order. *)
Inductive call :=
| Call_fopen (filename : string)
| Call_fgetc
| Call_fclose
| Call_malloc (n : Z)
| Call_free
| Call_sprintf_malloc (s : string)
| Call_lua_newstate (quota : Z)
| Call_luaL_newstate
| Call_lua_atpanic
| Call_lua_sethook (mask count : Z)
| Call_luaL_openlibs
| Call_lua_pushstring (s : string)
| Call_lua_setglobal (name : string)
| Call_lua_getglobal (name : string)
| Call_lua_getfield (idx : Z) (k : string)
| Call_lua_setfield (idx : Z) (k : string)
| Call_lua_tostring (idx : Z)
| Call_lua_pop (n : Z)
| Call_lua_newtable
| Call_censorscope_options_lua
| Call_luaL_loadfile (filename : string)
| Call_lua_pcall (nargs nresults errfunc : Z)
| Call_lua_setfenv (idx : Z).

(** [sandbox_t] holds the VM ([NULL] before [sandbox_init] succeeds); around
    it, the error sink and the record of calls. *)
Record world := World {
  sandbox_L : option lua_State;
  w_log : list log_entry;
  w_trace : list call
}.

(** How a C function ends: it returns a value; or control never comes back
    to its caller (a Lua error outside any protected call ends in the panic
    function and [exit], and a call outside the contract of the API has no
    defined behaviour); or the script is still running when the fuel is
    spent. *)
Inductive result (A : Type) :=
| Done (a : A)
| NoReturn
| Unfinished.
Arguments Done {A} a.
Arguments NoReturn {A}.
Arguments Unfinished {A}.

Definition M (A : Type) : Type := world -> result A * world.

#[export] Instance M_ret : MRet M := fun A (a : A) (w : world) => (Done a, w).

#[export] Instance M_bind : MBind M := fun A B (f : A -> M B) (m : M A) (w : world) =>
  match m w with
  | (Done a, w') => f a w'
  | (NoReturn, w') => (NoReturn, w')
  | (Unfinished, w') => (Unfinished, w')
  end.

Definition called (c : call) : M unit :=
  fun w => (Done tt, World (sandbox_L w) (w_log w) (w_trace w ++ [c])).

Definition log_error (fmt : string) (args : list (option string)) : M unit :=
  fun w => (Done tt, World (sandbox_L w) (w_log w ++ [LogError fmt args]) (w_trace w)).

(** An API function on the VM of the sandbox; [None] is a call outside the
    contract of the API. *)
Definition on_L {A} (f : lua_State -> option (A * lua_State)) : M A :=
  fun w =>
    match sandbox_L w with
    | Some L =>
        match f L with
        | Some (a, L') => (Done a, World (Some L') (w_log w) (w_trace w))
        | None => (NoReturn, w)
        end
    | None => (NoReturn, w)
    end.

(** ** The host

    Everything the program does not decide itself. *)
Record host := Host {
  (* the file system: [fopen (name, "r")] finds a file or fails *)
  h_fopen : string -> option file;
  (* whether [malloc (n)] finds the memory *)
  h_malloc : Z -> bool;
  (* whether a VM can be built, with a budget ([Some]) or without *)
  h_newstate : option Z -> bool;
  (* what the standard libraries register as globals, and the initial
     [package.path] *)
  h_stdlib : table;
  h_lua_path : string;
  (* whether the table of options can be filled *)
  h_options_lua : bool;
  (* the parser: [None] when the file compiles, or the kind of error and its
     message *)
  h_loadfile : string -> option (lua_status * string);
  (* running a chunk: the machine of [luaV_execute] *)
  h_conf : Type;
  h_enter : chunk -> nat -> heap -> h_conf;
  h_step : h_conf -> vm_step h_conf;
  h_heap_at : h_conf -> heap;
  h_where_at : h_conf -> string
}.

(** Options of the command line (options.h is not among the sources: the
    two limits are integers, [strtol] produces them). *)
Record censorscope_options_t := Options {
  sandbox_dir : string;
  luasrc_dir : string;
  max_memory : Z;
  max_instructions : Z
}.

Section Api.

Variable H : host.

(** *** libc *)

Definition malloc (n : Z) : M bool :=
  called (Call_malloc n);; mret (h_malloc H n).

Definition free : M unit := called Call_free.

(** Modelled from the spec: [sprintf_malloc] of util.c, which is not among
    the sources.  It formats into a buffer it allocates, of the length of
    the text and its NUL, and returns [NULL] when the allocation fails. *)
Definition sprintf_malloc (text : string) : M (option string) :=
  called (Call_sprintf_malloc text);;
  mret (if h_malloc H (strlen text + 1) then Some (c_str text) else None).

(** *** Creating a VM *)

Definition new_state (quota : option Z) : lua_State :=
  LuaState [] (Heap [∅] []) quota None 0 0 0.

Definition set_L (L : option lua_State) : M unit :=
  fun w => (Done tt, World L (w_log w) (w_trace w)).

Definition get_L : M (option lua_State) :=
  fun w => (Done (sandbox_L w), w).

(** [sandbox->L = lua_newstate (l_alloc_restricted, &available)], the
    counter holding [quota]: from here on the counter is moved by the calls
    of the VM to its allocator, see [Quota]. *)
Definition lua_newstate (quota : Z) : M unit :=
  called (Call_lua_newstate quota);;
  set_L (if h_newstate H (Some quota) then Some (new_state (Some quota)) else None).

Definition luaL_newstate : M unit :=
  called Call_luaL_newstate;;
  set_L (if h_newstate H None then Some (new_state None) else None).

Definition lua_atpanic : M unit := called Call_lua_atpanic.

(** [lua_sethook]: a mask of 0 removes the hook; the counter starts at
    [count]. *)
Definition lua_sethook (f : lua_Hook) (mask count : Z) : M Z :=
  called (Call_lua_sethook mask count);;
  on_L (fun L =>
          let mask' := Z.land mask 255 in
          let f' := if mask =? 0 then None else Some f in
          Some (1, LuaState (l_stack L) (l_heap L) (l_quota L)
                     f' (if mask =? 0 then 0 else mask') count count)).

(** [luaL_openlibs], as far as the program depends on it: the globals of
    the standard libraries, among them the table [package] with its
    [path]. *)
Definition luaL_openlibs : M unit :=
  called Call_luaL_openlibs;;
  on_L (fun L =>
          let h := l_heap L in
          let r := length (tables h) in
          let package : table := {[ "path" := LString (c_str (h_lua_path H)) ]} in
          let G := default ∅ (tables h !! GLOBALS) in
          let G' := <["package" := LTable r]> (h_stdlib H ∪ G) in
          Some (tt, set_heap L (Heap (<[GLOBALS := G']> (tables h ++ [package]))
                                     (closures h)))).

(** *** The stack *)

Definition lua_pushstring (s : string) : M unit :=
  called (Call_lua_pushstring s);;
  on_L (fun L => Some (tt, push (LString (c_str s)) L)).

Definition lua_newtable : M unit :=
  called Call_lua_newtable;;
  on_L (fun L =>
          let h := l_heap L in
          Some (tt, push (LTable (length (tables h)))
                      (set_heap L (Heap (tables h ++ [∅]) (closures h))))).

Definition lua_pop (n : Z) : M unit :=
  called (Call_lua_pop n);;
  on_L (fun L =>
          if (0 <=? n) && (n <=? Z.of_nat (length (l_stack L)))
          then Some (tt, set_stack L (drop (Z.to_nat n) (l_stack L)))
          else None).

(** [lua_tostring]: a string as a C string, a number converted in place,
    [NULL] for anything else. *)
Definition lua_tostring (idx : Z) : M (option string) :=
  called (Call_lua_tostring idx);;
  on_L (fun L =>
          pos ← index2pos L idx;
          v ← l_stack L !! pos;
          match v with
          | LString s => Some (Some (c_str s), L)
          | LNumber n =>
              let s := pretty n in
              Some (Some s, set_stack L (<[pos := LString s]> (l_stack L)))
          | _ => Some (None, L)
          end).

(** *** Globals and fields *)

Definition lua_getglobal (name : string) : M unit :=
  called (Call_lua_getglobal name);;
  on_L (fun L => Some (tt, push (rawget (l_heap L) GLOBALS name) L)).

Definition lua_setglobal (name : string) : M unit :=
  called (Call_lua_setglobal name);;
  on_L (fun L =>
          match l_stack L with
          | v :: st => Some (tt, set_stack (set_heap L (rawset (l_heap L) GLOBALS name v)) st)
          | [] => None
          end).

(** Indexing anything but a table raises an error. *)
Definition lua_getfield (idx : Z) (k : string) : M unit :=
  called (Call_lua_getfield idx k);;
  on_L (fun L =>
          match index2adr L idx with
          | Some (LTable r) => Some (tt, push (rawget (l_heap L) r k) L)
          | _ => None
          end).

Definition lua_setfield (idx : Z) (k : string) : M unit :=
  called (Call_lua_setfield idx k);;
  on_L (fun L =>
          match index2adr L idx, l_stack L with
          | Some (LTable r), v :: st =>
              Some (tt, set_stack (set_heap L (rawset (l_heap L) r k v)) st)
          | _, _ => None
          end).

End Api.

Section Sandbox.

Variable H : host.

Definition no_return {A} : M A := fun w => (NoReturn, w).

(** A pointer is not [NULL]. *)
Definition is_Some_b {A} (p : option A) : bool :=
  match p with Some _ => true | None => false end.

(** *** Loading and calling *)

(** [luaL_loadfile]: the compiled chunk is pushed as a function whose
    environment is the table of globals; on an error its message is pushed
    instead. *)
Definition luaL_loadfile (filename : string) : M Z :=
  called (Call_luaL_loadfile filename);;
  on_L (fun L =>
          match h_loadfile H filename with
          | None =>
              let h := l_heap L in
              Some (0, push (LFunction (length (closures h)))
                         (set_heap L (Heap (tables h)
                                        (closures h ++ [Closure filename GLOBALS]))))
          | Some (s, msg) => Some (status_code s, push (LString msg) L)
          end).

(** [lua_setfenv]: the table on top becomes the environment of the value
    at [idx] and is popped; 0 when that value cannot have one.  A top that
    is not a table is outside the contract. *)
Definition lua_setfenv (idx : Z) : M Z :=
  called (Call_lua_setfenv idx);;
  on_L (fun L =>
          match index2adr L idx, l_stack L with
          | Some (LFunction r), LTable t :: st =>
              let h := l_heap L in
              cl ← closures h !! r;
              Some (1, set_stack
                         (set_heap L (Heap (tables h)
                                        (<[r := Closure (cl_code cl) t]> (closures h))))
                         st)
          | Some (LCFunction _), LTable t :: st => Some (1, set_stack L st)
          | Some _, LTable t :: st => Some (0, set_stack L st)
          | _, _ => None
          end).

Definition type_name (v : lua_value) : string :=
  match v with
  | LNil => "nil"
  | LBoolean _ => "boolean"
  | LNumber _ => "number"
  | LString _ => "string"
  | LTable _ => "table"
  | LFunction _ | LCFunction _ => "function"
  end.

(** [lua_pcall (L, 0, 1, 0)] without its entry in the record of calls;
    it is the only shape the program uses: the function
    on top is popped and run by [luaV_execute] in its environment; its
    first result is pushed and 0 returned, or the error value is pushed
    and the status returned.  C functions are not run by this model. *)
Definition protected_call (fuel : nat) (nargs nresults errfunc : Z) : M Z :=
  fun w =>
    match sandbox_L w with
    | Some L =>
        if negb ((nargs =? 0) && (nresults =? 1) && (errfunc =? 0)) then (NoReturn, w)
        else
          let finish (st : list lua_value) (h : heap) (n : Z) :=
            World (Some (LuaState st h (l_quota L) (l_hook L) (l_hookmask L)
                           (l_basehookcount L) n))
                  (w_log w) (w_trace w) in
          match l_stack L with
          | LFunction r :: st =>
              match closures (l_heap L) !! r with
              | Some cl =>
                  match luaV_execute (h_step H) (h_heap_at H) (h_where_at H)
                          (l_hook L) (l_hookmask L) (l_basehookcount L)
                          fuel (l_hookcount L)
                          (h_enter H (cl_code cl) (cl_env cl) (l_heap L)) with
                  | Some (Returned v h, n) => (Done 0, finish (v :: st) h n)
                  | Some (Failed s e h, n) => (Done (status_code s), finish (e :: st) h n)
                  | None => (Unfinished, w)
                  end
              | None => (NoReturn, w)
              end
          | LCFunction _ :: _ => (NoReturn, w)
          | v :: st =>
              (Done LUA_ERRRUN,
               finish (LString ("attempt to call a " ++ type_name v ++ " value") :: st)
                      (l_heap L) (l_hookcount L))
          | [] => (NoReturn, w)
          end
    | None => (NoReturn, w)
    end.

Definition lua_pcall (fuel : nat) (nargs nresults errfunc : Z) : M Z :=
  called (Call_lua_pcall nargs nresults errfunc);;
  protected_call fuel nargs nresults errfunc.

(** Modelled from the spec: [censorscope_options_lua] of options.c, whose
    body is not among the sources.  It fills the table on top of the stack
    so that it mirrors the active configuration values, and returns 0, or
    fails with another value. *)
Definition censorscope_options_lua (options : censorscope_options_t) : M Z :=
  called Call_censorscope_options_lua;;
  if h_options_lua H then
    on_L (fun L =>
            match l_stack L with
            | LTable r :: _ =>
                let h := l_heap L in
                let h := rawset h r "sandbox_dir" (LString (c_str (sandbox_dir options))) in
                let h := rawset h r "luasrc_dir" (LString (c_str (luasrc_dir options))) in
                let h := rawset h r "max_memory" (LNumber (max_memory options)) in
                let h := rawset h r "max_instructions" (LNumber (max_instructions options)) in
                Some (0, set_heap L h)
            | _ => None
            end)
  else mret (-1).

(** ** sandbox.c *)

Definition BYTECODE_MAGIC_NUMBER : Z := 27.

(** InstructionLimiter: the hook. *)
Definition exit_hook : lua_Hook :=
  fun where_ ar =>
    if negb (event ar =? LUA_HOOKCOUNT) then Returns
    else luaL_error where_ "instruction limit reached".

(** ScriptValidator. *)
Definition is_valid_lua_script (filename : string) : M Z :=
  called (Call_fopen filename);;
  match h_fopen H filename with
  | None =>
      log_error "fopen(%s) error: %m" [Some filename];;
      mret 0
  | Some handle =>
      called Call_fgetc;;
      let first_byte := fgetc_first handle in
      called Call_fclose;;
      if f_close_fails handle then
        log_error "fgetc(%s) error: %m" [Some filename];;
        mret 0
      else if first_byte =? 0 then
        mret 0
      else if first_byte =? BYTECODE_MAGIC_NUMBER then
        log_error "for security, we do not evaluate Lua bytecode" [];;
        mret 0
      else
        mret 1
  end.

(** PathExtender. *)
Definition prepend_package_path (new_entry : string) : M Z :=
  lua_getglobal "package";;
  lua_getfield (-1) "path";;
  cur ← lua_tostring (-1);
  match cur with
  | None => no_return                      (* [strlen (NULL)] *)
  | Some cur_path =>
      let new_len := to_int (size_wrap (strlen cur_path + strlen new_entry + 1 + 1)) in
      new_path ← malloc H (size_wrap new_len);
      if negb new_path then mret (-1)
      else
        let new_path := snprintf_s_semi_s (size_wrap new_len) new_entry cur_path in
        lua_pop 1;;
        lua_pushstring new_path;;
        free;;
        lua_setfield (-2) "path";;
        lua_pop 1;;
        mret 0
  end.

Definition sandbox_init (name : string) (options : censorscope_options_t) : M Z :=
  (if max_memory options >? 0
   then lua_newstate H (size_wrap (max_memory options))
   else luaL_newstate H);;
  L ← get_L;
  if negb (is_Some_b L) then
    log_error "error calling luaL_newstate" [];;
    mret (-1)
  else
    lua_atpanic;;
    (if max_instructions options >? 0
     then lua_sethook exit_hook LUA_MASKCOUNT (max_instructions options);; mret tt
     else mret tt);;
    luaL_openlibs H;;
    lua_pushstring name;;
    lua_setglobal "SANDBOX_NAME";;
    lua_newtable;;
    r ← censorscope_options_lua options;
    if negb (r =? 0) then
      log_error "error creating table of censorscope options" [];;
      mret (-1)
    else
      lua_setglobal "CENSORSCOPE_OPTIONS";;
      new_pattern ← sprintf_malloc H (luasrc_dir options ++ "/?.lua");
      match new_pattern with
      | None => mret (-1)
      | Some new_pattern =>
          r ← prepend_package_path new_pattern;
          if negb (r =? 0) then
            log_error "error setting packages.path" [];;
            free;;
            mret (-1)
          else
            free;;
            mret 0
      end.

(** ExecutionProtocol.  The two branches on [environment] either leave
    [sandbox_run] with a status ([Some]) or fall through ([None]). *)
Definition sandbox_run (fuel : nat) (filename : string) (environment : option string)
  : M Z :=
  valid ← is_valid_lua_script filename;
  if valid =? 0 then mret (-1)
  else
    r ← luaL_loadfile filename;
    if negb (r =? 0) then
      msg ← lua_tostring (-1);
      log_error "%s" [msg];;
      mret (-1)
    else
      left ← match environment with
             | Some environment =>
                 r ← luaL_loadfile environment;
                 if negb (r =? 0) then
                   msg ← lua_tostring (-1);
                   log_error "%s" [msg];;
                   mret (Some (-1))
                 else
                   r ← lua_pcall fuel 0 1 0;
                   if negb (r =? 0) then
                     msg ← lua_tostring (-1);
                     log_error "%s" [msg];;
                     mret (Some (-1))
                   else mret None
             | None =>
                 lua_newtable;;
                 mret None
             end;
      match left with
      | Some status => mret status
      | None =>
          r ← lua_setfenv (-2);
          if negb (r =? 1) then
            msg ← lua_tostring (-1);
            log_error "%s" [msg];;
            mret (-1)
          else
            r ← lua_pcall fuel 0 1 0;
            if negb (r =? 0) then
              msg ← lua_tostring (-1);
              log_error "error running %s: %s" [Some filename; msg];;
              mret (-1)
            else mret 0
      end.

End Sandbox.

(** ** Observations on a run *)

(** The world after the three stdio calls of the validator. *)
Definition validated (filename : string) (w : world) : world :=
  World (sandbox_L w) (w_log w)
    (w_trace w ++ [Call_fopen filename; Call_fgetc; Call_fclose]).

Definition logged (e : log_entry) (w : world) : world :=
  World (sandbox_L w) (w_log w ++ [e]) (w_trace w).

(** The world after a load: the chunk, as a closure over the globals, or
    the message of the parser is on top of the stack. *)
Definition loaded (H : host) (f : string) (L : lua_State) (w : world) : world :=
  World
    (Some (match h_loadfile H f with
           | None =>
               push (LFunction (length (closures (l_heap L))))
                 (set_heap L (Heap (tables (l_heap L))
                                (closures (l_heap L) ++ [Closure f GLOBALS])))
           | Some (_, msg) => push (LString msg) L
           end))
    (w_log w) (w_trace w ++ [Call_luaL_loadfile f]).

(** The calls by which a file is inspected. *)
Definition is_stdio (c : call) : bool :=
  match c with
  | Call_fopen _ | Call_fgetc | Call_fclose => true
  | _ => false
  end.

Definition lua_call (c : call) : Prop := is_stdio c = false.

(** The calls that hand a file to the Lua loader. *)
Definition is_load (c : call) : bool :=
  match c with
  | Call_luaL_loadfile _ => true
  | _ => false
  end.

(** [emits P m]: whatever the world, [m] only adds calls to the record, all
    of them satisfying [P]. *)
Definition emits {A} (P : call -> Prop) (m : M A) : Prop :=
  forall w, exists evs, w_trace (m w).2 = w_trace w ++ evs /\ Forall P evs.

(** [quiet_failure r]: some status other than 0 came back and the error sink
    received nothing. *)
Definition quiet_failure (w : world) (r : result Z * world) : Prop :=
  (exists status, r.1 = Done status /\ status <> 0) /\ w_log r.2 = w_log w.

(** The hook of a VM: the function, the mask, the period and the counter. *)
Definition hook_state (L : lua_State) : option lua_Hook * Z * Z * Z :=
  (l_hook L, l_hookmask L, l_basehookcount L, l_hookcount L).


(** What [lua_tostring] returns for a value. *)
Definition tostring_of (v : lua_value) : option string :=
  match v with
  | LString s => Some (c_str s)
  | LNumber n => Some (pretty n)
  | _ => None
  end.

(** [advance step k c]: the configuration after [k] instructions, if the
    script is still running then. *)
Fixpoint advance {conf : Type} (step : conf -> vm_step conf) (k : nat) (c : conf)
  : option conf :=
  match k with
  | O => Some c
  | S k' =>
      match step c with
      | VmNext c' => advance step k' c'
      | _ => None
      end
  end.

(** ** The sandbox half-way through [sandbox_init] *)

Section Prepared.

Variable H : host.
Variables (name : string) (options : censorscope_options_t).

(** The budget handed to [lua_newstate], if any. *)
Definition vm_quota : option Z :=
  if max_memory options >? 0 then Some (size_wrap (max_memory options)) else None.

Definition newstate_call : call :=
  if max_memory options >? 0
  then Call_lua_newstate (size_wrap (max_memory options))
  else Call_luaL_newstate.

(** The hook [sandbox_init] leaves in the VM. *)
Definition installed_hook : option lua_Hook * Z * Z * Z :=
  if max_instructions options >? 0
  then (Some exit_hook, LUA_MASKCOUNT, max_instructions options, max_instructions options)
  else (None, 0, 0, 0).

Definition hook_calls : list call :=
  if max_instructions options >? 0
  then [Call_lua_sethook LUA_MASKCOUNT (max_instructions options)]
  else [].

Definition initial_globals : table :=
  <["SANDBOX_NAME" := LString (c_str name)]>
    (<["package" := LTable 1]> (h_stdlib H ∪ ∅)).

Definition initial_package : table :=
  {[ "path" := LString (c_str (h_lua_path H)) ]}.

Definition options_table : table :=
  <["max_instructions" := LNumber (max_instructions options)]>
    (<["max_memory" := LNumber (max_memory options)]>
       (<["luasrc_dir" := LString (c_str (luasrc_dir options))]>
          (<["sandbox_dir" := LString (c_str (sandbox_dir options))]> ∅))).

Definition with_hook (st : list lua_value) (h : heap) : lua_State :=
  LuaState st h vm_quota installed_hook.1.1.1 installed_hook.1.1.2
    installed_hook.1.2 installed_hook.2.

(** The VM when the table of options could not be filled. *)
Definition unfinished_vm : lua_State :=
  with_hook [LTable 2] (Heap [initial_globals; initial_package; ∅] []).

(** The VM on entry to the PathExtender. *)
Definition prepared : lua_State :=
  with_hook []
    (Heap [<["CENSORSCOPE_OPTIONS" := LTable 2]> initial_globals;
           initial_package; options_table] []).

(** The calls up to there. *)
Definition preparation : list call :=
  [newstate_call; Call_lua_atpanic] ++ hook_calls ++
  [Call_luaL_openlibs; Call_lua_pushstring name;
   Call_lua_setglobal "SANDBOX_NAME"; Call_lua_newtable;
   Call_censorscope_options_lua].

End Prepared.

(** The value [lua_tostring] leaves in the stack: a number becomes its
    text. *)
Definition converted (v : lua_value) : lua_value :=
  match v with
  | LNumber n => LString (pretty n)
  | _ => v
  end.

Definition is_sethook (c : call) : bool :=
  match c with
  | Call_lua_sethook _ _ => true
  | _ => false
  end.

(** ** The bytes the VM holds

    The allocator never sees how much the VM holds: it trusts the [osize] of
    each request.  The ledger below keeps that amount beside a run of
    requests, to state what the counter amounts to. *)

Module Ledger.

Import Quota.

(** What the VM holds after a request that returned [p]. *)
Definition held_after (held : Z) (rq : request) (p : Z) : Z :=
  if rq_nsize rq =? 0 then held - rq_osize rq
  else if p =? NULL then held
  else held - rq_osize rq + rq_nsize rq.

Section Run.

Context {heap : Type}.
Variable c_free : heap -> Z -> heap.
Variable c_realloc : heap -> Z -> Z -> Z * heap.

(** The state and the bytes held after a run of requests. *)
Fixpoint run (st : state) (held : Z) (reqs : list request) : @state heap * Z :=
  match reqs with
  | [] => (st, held)
  | rq :: reqs' =>
      let '(p, st') := l_alloc_restricted c_free c_realloc st
                         (rq_ptr rq) (rq_osize rq) (rq_nsize rq) in
      run st' (held_after held rq p) reqs'
  end.

(** A run in which the VM tells the truth as far as the total goes: sizes
    are not negative and no request gives back more than the VM holds. *)
Fixpoint truthful (st : @state heap) (held : Z) (reqs : list request) : Prop :=
  match reqs with
  | [] => True
  | rq :: reqs' =>
      0 <= rq_osize rq <= held /\ 0 <= rq_nsize rq /\
      let '(p, st') := l_alloc_restricted c_free c_realloc st
                         (rq_ptr rq) (rq_osize rq) (rq_nsize rq) in
      truthful st' (held_after held rq p) reqs'
  end.

End Run.

End Ledger.

(** ** More observations on a run *)

(** [quiet m]: [m] writes nothing to the error sink. *)
Definition quiet {A} (m : M A) : Prop :=
  forall w, w_log (m w).2 = w_log w.

(** [verdict m]: when [m] returns, it returns 0 or -1, and 0 only with the
    error sink as it was. *)
Definition verdict (m : M Z) : Prop :=
  forall w a w', m w = (Done a, w') ->
    (a = 0 \/ a = -1) /\ (a = 0 -> w_log w' = w_log w).

(** [only_fails m]: when [m] returns, it returns -1. *)
Definition only_fails (m : M Z) : Prop :=
  forall w a w', m w = (Done a, w') -> a = -1.

(** The same for a block that either leaves its function with a status or
    falls through: it leaves with -1 only, and falls through without a
    word. *)
Definition block_verdict (m : M (option Z)) : Prop :=
  forall w o w', m w = (Done o, w') ->
    o = Some (-1) \/ (o = None /\ w_log w' = w_log w).

Definition block_only_fails (m : M (option Z)) : Prop :=
  forall w o w', m w = (Done o, w') -> o = Some (-1).

(** The size [prepend_package_path] hands to [malloc] when [sandbox_init]
    calls it: the lengths are those of the initial [package.path] and of
    the pattern [<luasrc_dir>/?.lua]. *)
Definition path_size (H : host) (options : censorscope_options_t) : Z :=
  size_wrap (to_int (size_wrap (strlen (c_str (c_str (h_lua_path H)))
                                + strlen (c_str (luasrc_dir options ++ "/?.lua"))
                                + 1 + 1))).
(** * Concrete hosts for examples *)

(** Bounds on concrete sizes. *)
Ltac in_range :=
  unfold is_size_t, SIZE_MAX, SIZE_BITS, INT_MAX; cbn; lia.

(** Concrete runs on the arena: a budget of 10 bytes in an arena of 100. *)

Definition tight : @Quota.state Z :=
  Quota.State 10 100 [] [].
Arguments tight /.


(** A host for examples.  Files: a script that reads the global [x], a
    script that never ends, one that raises an error, one that builds the
    table [{x = 5}], a precompiled chunk, a file that starts with a NUL byte
    and an empty file. *)
Module Demo.

Definition file_of (text : string) : option file :=
  Some (File (list_byte_of_string text) false false).

Definition fopen (name : string) : option file :=
  if String.eqb name "probe.lua" then file_of "return x"
  else if String.eqb name "loop.lua" then file_of "while true do end"
  else if String.eqb name "boom.lua" then file_of "error('boom')"
  else if String.eqb name "api.lua" then file_of "return {x = 5}"
  else if String.eqb name "broken.lua" then file_of "return ("
  else if String.eqb name "compiled.luac" then
    Some (File [Byte.x1b; Byte.x4c; Byte.x75; Byte.x61; Byte.x51] false false)
  else if String.eqb name "zero.bin" then Some (File [Byte.x00; Byte.x2d] false false)
  else if String.eqb name "empty.lua" then Some (File [] false false)
  else if String.eqb name "stale.lua" then
    Some (File (list_byte_of_string "return 1") false true)
  else None.

Definition loadfile (name : string) : option (lua_status * string) :=
  if String.eqb name "broken.lua"
  then Some (ErrSyntax, "broken.lua:1: unexpected symbol near <eof>")
  else if String.eqb name "missing.lua"
  then Some (ErrFile, "cannot open missing.lua")
  else None.

(** A configuration: the chunk, its environment, the heap and the number of
    instructions executed. *)
Definition conf : Type := chunk * nat * heap * nat.

Definition step (c : conf) : vm_step conf :=
  let '(code, env, h, pc) := c in
  if String.eqb code "loop.lua" then VmNext (code, env, h, S pc)
  else if String.eqb code "boom.lua" then
    VmError ErrRun (LString "boom.lua:1: boom") h
  else if String.eqb code "api.lua" || String.eqb code "compiled.luac" then
    if (pc <? 2)%nat then VmNext (code, env, h, S pc)
    else VmReturn (LTable (length (tables h)))
           (Heap (tables h ++ [{[ "x" := LNumber 5 ]}]) (closures h))
  else
    if (pc <? 1)%nat then VmNext (code, env, h, S pc)
    else VmReturn (rawget h env "x") h.

Definition plain : host := {|
  h_fopen := fopen;
  h_malloc := fun n => n <=? 4096;
  h_newstate := fun q => match q with Some n => 1000 <=? n | None => true end;
  h_stdlib := {[ "print" := LCFunction "print" ]};
  h_lua_path := "./?.lua;/usr/share/lua/5.1/?.lua";
  h_options_lua := true;
  h_loadfile := loadfile;
  h_conf := conf;
  h_enter := fun code env h => (code, env, h, O);
  h_step := step;
  h_heap_at := fun c => c.1.2;
  h_where_at := fun c => (c.1.1.1 ++ ":1: ")%string
|}.

Definition options : censorscope_options_t :=
  {| sandbox_dir := "sandbox"; luasrc_dir := "luasrc";
     max_memory := 0; max_instructions := 100 |}.

(** Before [sandbox_init]. *)
Definition nothing : world := World None [] [].

(** The VM [sandbox_init] builds, and the sandbox around it with no log
    and no record of calls yet. *)
Definition vm : lua_State :=
  default (new_state None) (sandbox_L (sandbox_init plain "demo" options nothing).2).

Definition ready : world := World (Some vm) [] [].

(** The same host with 20 bytes for [malloc] at most. *)
Definition cramped : host := {|
  h_fopen := fopen;
  h_malloc := fun n => n <=? 20;
  h_newstate := h_newstate plain;
  h_stdlib := h_stdlib plain;
  h_lua_path := h_lua_path plain;
  h_options_lua := true;
  h_loadfile := loadfile;
  h_conf := conf;
  h_enter := h_enter plain;
  h_step := step;
  h_heap_at := h_heap_at plain;
  h_where_at := h_where_at plain
|}.

End Demo.

(** A second host for examples: the first one, with a directory among its
    files (it opens and closes, reading from it fails). *)
Module Demo2.

Definition fopen (name : string) : option file :=
  if String.eqb name "folder" then Some (File [] true false)
  else Demo.fopen name.

Definition plain : host := {|
  h_fopen := fopen;
  h_malloc := h_malloc Demo.plain;
  h_newstate := h_newstate Demo.plain;
  h_stdlib := h_stdlib Demo.plain;
  h_lua_path := h_lua_path Demo.plain;
  h_options_lua := true;
  h_loadfile := Demo.loadfile;
  h_conf := Demo.conf;
  h_enter := h_enter Demo.plain;
  h_step := Demo.step;
  h_heap_at := h_heap_at Demo.plain;
  h_where_at := h_where_at Demo.plain
|}.

(** No limit on instructions, and a budget of 4096 bytes. *)
Definition unlimited : censorscope_options_t :=
  {| sandbox_dir := "sandbox"; luasrc_dir := "luasrc";
     max_memory := 4096; max_instructions := 0 |}.

(** The VM [sandbox_init] builds from these options on the first host. *)
Definition vm : lua_State :=
  default (new_state None)
    (sandbox_L (sandbox_init Demo.plain "demo" unlimited Demo.nothing).2).

End Demo2.

(** * options.c: the command line

    [censorscope_options_init] fills the struct of options from the command
    line; the strings are copies made by [strdup], which
    [censorscope_options_destroy] frees.  The model keeps the blocks of
    [strdup] apart, so that a block freed twice or never shows. *)
Module Cmdline.

(** [long] on LP64, and the two statuses of [exit]. *)
Definition LONG_MAX : Z := 2 ^ 63 - 1.
Definition LONG_MIN : Z := - 2 ^ 63.
Definition EXIT_SUCCESS : Z := 0.
Definition EXIT_FAILURE : Z := 1.

(** What libc decides: whether the [n]-th call of [strdup] finds memory, and
    whether [strtol] sets [errno] when it finds no digits (C leaves it to the
    implementation: glibc does not, musl does). *)
Record libc := Libc {
  strdup_ok : nat -> bool;
  strtol_einval : bool
}.

(** ** [strtol (nptr, &endptr, 10)] *)

Definition isspace (a : ascii) : bool :=
  let n := nat_of_ascii a in
  (n =? 32)%nat || ((9 <=? n)%nat && (n <=? 13)%nat).

Definition digit (a : ascii) : option Z :=
  let n := Z.of_nat (nat_of_ascii a) in
  if (48 <=? n) && (n <=? 57) then Some (n - 48) else None.

Fixpoint skip_spaces (s : string) : string :=
  match s with
  | String a s' => if isspace a then skip_spaces s' else s
  | EmptyString => s
  end.

(** The digits at the head of [s]: their value after [acc], and what follows
    them. *)
Fixpoint digits (acc : Z) (s : string) : Z * string :=
  match s with
  | String a s' =>
      match digit a with
      | Some d => digits (10 * acc + d) s'
      | None => (acc, s)
      end
  | EmptyString => (acc, s)
  end.

(** The value, the text [endptr] is left at, and whether [errno] is set.
    White space, an optional sign, digits; without a digit nothing is
    converted and [endptr] is [nptr]; a value outside [long] is clamped and
    [errno] is [ERANGE]. *)
Definition strtol (C : libc) (nptr : string) : Z * string * bool :=
  let s := skip_spaces nptr in
  let '(negative, s) :=
    match s with
    | String "-" s' => (true, s')
    | String "+" s' => (false, s')
    | _ => (false, s)
    end in
  match s with
  | String a _ =>
      match digit a with
      | Some _ =>
          let '(v, rest) := digits 0 s in
          let v := if negative then - v else v in
          if v >? LONG_MAX then (LONG_MAX, rest, true)
          else if v <? LONG_MIN then (LONG_MIN, rest, true)
          else (v, rest, false)
      | None => (0, nptr, strtol_einval C)
      end
  | EmptyString => (0, nptr, strtol_einval C)
  end.

(** [p[0] != '\0'] *)
Definition not_at_end (p : string) : bool :=
  match p with
  | String a _ => negb (Ascii.eqb a Ascii.zero)
  | EmptyString => false
  end.

(** ** The process *)

(** [censorscope_options_t] as options.c handles it: the two strings are
    pointers to blocks of [strdup], [None] for [NULL].  (options.h is not
    among the sources: the two limits hold what [strtol] returns.) *)
Record t := Struct {
  sandbox_dir : option nat;
  luasrc_dir : option nat;
  max_memory : Z;
  max_instructions : Z
}.

Inductive output :=
| Perror (s : string)
| Fprintf (text : string).

(** The struct [options] points to, the blocks of [strdup] not freed yet with
    their text, the number of calls of [strdup] so far (the next block), and
    what went to [stderr]. *)
Record state := State {
  options : t;
  live : gmap nat string;
  allocated : nat;
  stderr : list output
}.

(** How a function ends: it returns, or the process exits, or it does what C
    leaves undefined (a block freed twice). *)
Inductive outcome (A : Type) :=
| Return (a : A)
| Exit (status : Z)
| Undefined.
Arguments Return {A} a.
Arguments Exit {A} status.
Arguments Undefined {A}.

Definition Proc (A : Type) : Type := state -> outcome A * state.

#[export] Instance Proc_ret : MRet Proc := fun A (a : A) (s : state) => (Return a, s).

#[export] Instance Proc_bind : MBind Proc :=
  fun A B (f : A -> Proc B) (m : Proc A) (s : state) =>
    match m s with
    | (Return a, s') => f a s'
    | (Exit status, s') => (Exit status, s')
    | (Undefined, s') => (Undefined, s')
    end.

Definition exit {A} (status : Z) : Proc A := fun s => (Exit status, s).

Definition get : Proc t := fun s => (Return (options s), s).

Definition set (f : t -> t) : Proc unit :=
  fun s => (Return tt, State (f (options s)) (live s) (allocated s) (stderr s)).

Definition perror (text : string) : Proc unit :=
  fun s => (Return tt,
            State (options s) (live s) (allocated s) (stderr s ++ [Perror text])).

Definition fprintf_stderr (text : string) : Proc unit :=
  fun s => (Return tt,
            State (options s) (live s) (allocated s) (stderr s ++ [Fprintf text])).

Section Libc.

Variable C : libc.

(** [strdup]: a new block holding the text, or [NULL]. *)
Definition strdup (text : string) : Proc (option nat) :=
  fun s =>
    let n := allocated s in
    if strdup_ok C n
    then (Return (Some n),
          State (options s) (<[n := c_str text]> (live s)) (S n) (stderr s))
    else (Return None, State (options s) (live s) (S n) (stderr s)).

(** [free]: nothing for [NULL]; a block that is not live is freed twice. *)
Definition free (p : option nat) : Proc unit :=
  fun s =>
    match p with
    | None => (Return tt, s)
    | Some b =>
        match live s !! b with
        | Some _ =>
            (Return tt, State (options s) (delete b (live s)) (allocated s) (stderr s))
        | None => (Undefined, s)
        end
    end.

(** ** options.c *)

Definition nl : string := String (ascii_of_nat 10) EmptyString.
Definition dquote : string := String (ascii_of_nat 34) EmptyString.

(** [usage_string] with the name of the program in place of [%s]. *)
Definition usage_string (program : string) : string :=
  ("Usage: " ++ c_str program ++ " [options]" ++ nl
   ++ "  -h --help" ++ nl
   ++ "  -i --max-instructions <instructions> (default: 0)" ++ nl
   ++ "  -l --luasrc-dir <path> (default: " ++ dquote ++ "luasrc" ++ dquote ++ ")" ++ nl
   ++ "  -m --max-memory <bytes> (default: 0)" ++ nl
   ++ "  -s --sandbox-dir <path> (default: " ++ dquote ++ "sandbox" ++ dquote ++ ")" ++ nl)%string.

Definition print_usage (program : string) : Proc unit :=
  fprintf_stderr (usage_string program).

Definition censorscope_options_destroy : Proc Z :=
  o ← get;
  free (luasrc_dir o);;
  o ← get;
  free (sandbox_dir o);;
  mret 0.

Definition set_sandbox_dir (p : option nat) : Proc unit :=
  set (fun o => Struct p (luasrc_dir o) (max_memory o) (max_instructions o)).

Definition set_luasrc_dir (p : option nat) : Proc unit :=
  set (fun o => Struct (sandbox_dir o) p (max_memory o) (max_instructions o)).

Definition set_max_memory (v : Z) : Proc unit :=
  set (fun o => Struct (sandbox_dir o) (luasrc_dir o) v (max_instructions o)).

Definition set_max_instructions (v : Z) : Proc unit :=
  set (fun o => Struct (sandbox_dir o) (luasrc_dir o) (max_memory o) v).

(** The loop of [censorscope_options_init] over what [getopt_long] returns,
    call after call: the character of an option with its [optarg], until -1
    at the end of the list.  An option [getopt_long] does not know, or one
    that lacks its argument, comes back as ['?']. *)
Fixpoint getopt_loop (program : string) (results : list (ascii * string)) : Proc Z :=
  match results with
  | [] => mret 0
  | (c, optarg) :: rest =>
      if Ascii.eqb c "h" then
        print_usage program;;
        censorscope_options_destroy;;
        exit EXIT_SUCCESS
      else if Ascii.eqb c "i" then
        let '(v, first_invalid, errno) := strtol C optarg in
        set_max_instructions v;;
        if errno then
          perror "strtol";;
          censorscope_options_destroy;;
          mret (-1)
        else if not_at_end first_invalid then
          fprintf_stderr ("Invalid instruction count." ++ nl);;
          mret (-1)
        else getopt_loop program rest
      else if Ascii.eqb c "l" then
        o ← get;
        free (luasrc_dir o);;
        p ← strdup optarg;
        set_luasrc_dir p;;
        if negb (is_Some_b p) then
          perror "strdup";;
          censorscope_options_destroy;;
          mret (-1)
        else getopt_loop program rest
      else if Ascii.eqb c "m" then
        let '(v, first_invalid, errno) := strtol C optarg in
        set_max_memory v;;
        if errno then
          perror "strtol";;
          censorscope_options_destroy;;
          mret (-1)
        else if not_at_end first_invalid then
          fprintf_stderr ("Invalid max memory." ++ nl);;
          censorscope_options_destroy;;
          mret (-1)
        else getopt_loop program rest
      else if Ascii.eqb c "s" then
        o ← get;
        free (sandbox_dir o);;
        p ← strdup optarg;
        set_sandbox_dir p;;
        if negb (is_Some_b p) then
          perror "strdup";;
          censorscope_options_destroy;;
          mret (-1)
        else getopt_loop program rest
      else
        print_usage program;;
        exit EXIT_FAILURE
  end.

Definition censorscope_options_init (program : string)
    (results : list (ascii * string)) : Proc Z :=
  p ← strdup "sandbox";
  set_sandbox_dir p;;
  if negb (is_Some_b p) then
    perror "stdrup";;
    mret (-1)
  else
    q ← strdup "luasrc";
    set_luasrc_dir q;;
    if negb (is_Some_b q) then
      o ← get;
      free (sandbox_dir o);;
      perror "stdrup";;
      mret (-1)
    else
      set_max_memory 0;;
      set_max_instructions 0;;
      getopt_loop program results.

(** ** Observations *)

(** The options as [sandbox_init] reads them: the texts the two pointers lead
    to, when both blocks are live. *)
Definition load (s : state) : option censorscope_options_t :=
  p ← sandbox_dir (options s);
  a ← live s !! p;
  q ← luasrc_dir (options s);
  b ← live s !! q;
  Some (Options a b (max_memory (options s)) (max_instructions (options s))).

(** What one option does to the values, when it is accepted. *)
Definition settle1 (o : censorscope_options_t) (r : ascii * string)
  : censorscope_options_t :=
  let '(c, optarg) := r in
  let '(Options sandbox luasrc memory instructions) := o in
  if Ascii.eqb c "i" then Options sandbox luasrc memory (strtol C optarg).1.1
  else if Ascii.eqb c "l" then Options sandbox (c_str optarg) memory instructions
  else if Ascii.eqb c "m" then Options sandbox luasrc (strtol C optarg).1.1 instructions
  else if Ascii.eqb c "s" then Options (c_str optarg) luasrc memory instructions
  else o.

(** The defaults, then every option in turn: the last one of a kind wins. *)
Definition settle (results : list (ascii * string)) : censorscope_options_t :=
  fold_left settle1 results (Options "sandbox" "luasrc" 0 0).

(** Every live block was handed out by [strdup]. *)
Definition well_formed (s : state) : Prop :=
  forall b, is_Some (live s !! b) -> (b < allocated s)%nat.

(** The struct owns two different live blocks. *)
Definition owns (s : state) (p q : nat) : Prop :=
  sandbox_dir (options s) = Some p /\ luasrc_dir (options s) = Some q /\
  p <> q /\ is_Some (live s !! p) /\ is_Some (live s !! q).

(** The live blocks besides the two of the struct. *)
Definition others (s : state) (p q : nat) : gmap nat string :=
  delete p (delete q (live s)).

(** The ways [censorscope_options_init] can end, [before] being the blocks
    that were live on entry: the options are parsed and the struct owns two
    new blocks holding the values [o]; or it gives up and has freed its
    blocks; or it gives up on an instruction count and has not; or it has
    printed the usage, freed its blocks and left the process with success;
    or it has printed the usage and left the process with failure. *)
Inductive ending (usage : string) (before : gmap nat string)
    (o : censorscope_options_t) : outcome Z * state -> Prop :=
| Parsed s p q :
    owns s p q -> others s p q = before -> load s = Some o -> well_formed s ->
    ending usage before o (Return 0, s)
| Cleaned s :
    live s = before ->
    ending usage before o (Return (-1), s)
| Leaked s p q :
    owns s p q -> others s p q = before ->
    last (stderr s) = Some (Fprintf ("Invalid instruction count." ++ nl)) ->
    ending usage before o (Return (-1), s)
| Helped s :
    live s = before -> last (stderr s) = Some (Fprintf usage) ->
    ending usage before o (Exit EXIT_SUCCESS, s)
| Refused s p q :
    owns s p q -> others s p q = before ->
    last (stderr s) = Some (Fprintf usage) ->
    ending usage before o (Exit EXIT_FAILURE, s).

End Libc.

End Cmdline.

(** A libc for examples on the command line: memory for every [strdup], no
    [errno] from [strtol] without digits; and the process before
    [censorscope_options_init], its struct not yet filled. *)
Module DemoCli.

Definition generous : Cmdline.libc :=
  {| Cmdline.strdup_ok := fun _ => true; Cmdline.strtol_einval := false |}.

(** Memory for two calls of [strdup], none for the third. *)
Definition short : Cmdline.libc :=
  {| Cmdline.strdup_ok := fun n => (n <? 2)%nat; Cmdline.strtol_einval := false |}.

Definition start : Cmdline.state :=
  Cmdline.State (Cmdline.Struct None None 0 0) ∅ 0 [].

(** [censorscope -l lib -m 4096 -l src] *)
Definition twice : list (ascii * string) :=
  [("l"%char, "lib"); ("m"%char, "4096"); ("l"%char, "src")].

End DemoCli.
(** * Verification *)

(** ** QuotaAllocator *)

Lemma size_wrap_small z : is_size_t z -> size_wrap z = z.
Proof.
  unfold is_size_t, size_wrap, SIZE_MAX. intros Hz.
  apply Z.mod_small. lia.
Qed.

Lemma size_wrap_range z : is_size_t (size_wrap z).
Proof.
  unfold is_size_t, size_wrap, SIZE_MAX, SIZE_BITS.
  pose proof (Z.mod_pos_bound z (2 ^ 64) ltac:(lia)). lia.
Qed.

Section QuotaFacts.

Import Quota.

Context {heap : Type}.
Variable c_free : heap -> Z -> heap.
Variable c_realloc : heap -> Z -> Z -> Z * heap.

Abbreviation alloc := (l_alloc_restricted c_free c_realloc).

(** The test of line 39 either holds or does not. *)
Lemma classic_quota (st : @state heap) osize nsize :
  (nsize > osize /\ available st < nsize - osize) \/
  ~ (nsize > osize /\ available st < nsize - osize).
Proof. lia. Qed.

(** The three ways through the allocator, one lemma each. *)

Lemma alloc_free st ptr osize :
  alloc st ptr osize 0
  = (NULL, {| available := size_add (available st) osize;
              c_heap := c_free (c_heap st) ptr;
              calls := calls st ++ [Call_free ptr];
              log := log st |}).
Proof. reflexivity. Qed.

Lemma alloc_refused st ptr osize nsize :
  nsize <> 0 -> nsize > osize -> available st < nsize - osize ->
  alloc st ptr osize nsize
  = (NULL, {| available := available st; c_heap := c_heap st;
              calls := calls st;
              log := log st ++ [LogError "Out of memory!" []] |}).
Proof.
  intros Hn Hgrow Hlack. unfold l_alloc_restricted.
  destruct (Z.eqb_spec nsize 0) as [? | _]; [contradiction |].
  replace (nsize >? osize) with true by (symmetry; apply Z.gtb_lt; lia).
  replace (available st <? nsize - osize) with true
    by (symmetry; apply Z.ltb_lt; lia).
  reflexivity.
Qed.

Lemma alloc_resize st ptr osize nsize :
  nsize <> 0 -> ~ (nsize > osize /\ available st < nsize - osize) ->
  alloc st ptr osize nsize
  = let '(ptr', h') := c_realloc (c_heap st) ptr nsize in
    let quota :=
      if ptr' =? NULL then available st
      else if nsize >? osize then size_sub (available st) (nsize - osize)
      else size_add (available st) (osize - nsize) in
    (ptr', {| available := quota; c_heap := h';
              calls := calls st ++ [Call_realloc ptr nsize];
              log := log st |}).
Proof.
  intros Hn Hok. unfold l_alloc_restricted.
  destruct (Z.eqb_spec nsize 0) as [? | _]; [contradiction |].
  destruct (Z.gtb_spec nsize osize) as [Hg | Hg];
    destruct (Z.ltb_spec (available st) (nsize - osize)) as [Hl | Hl];
    simpl; try (exfalso; apply Hok; lia);
    destruct (c_realloc (c_heap st) ptr nsize) as [ptr' h'];
    destruct (ptr' =? NULL); reflexivity.
Qed.

(** Whatever the request, the counter stays a [size_t]. *)
Lemma alloc_available_range st ptr osize nsize :
  is_size_t (available st) ->
  is_size_t (available (snd (alloc st ptr osize nsize))).
Proof.
  intros Hst. unfold l_alloc_restricted.
  destruct (nsize =? 0); [apply size_wrap_range |].
  destruct ((nsize >? osize) && (available st <? nsize - osize)); [exact Hst |].
  destruct (c_realloc (c_heap st) ptr nsize) as [ptr' h'].
  destruct (ptr' =? NULL); [exact Hst |].
  destruct (nsize >? osize); apply size_wrap_range.
Qed.

(** A debit that is carried out is covered by the budget, and is exact. *)
Lemma alloc_debit_exact st ptr osize nsize :
  is_size_t (available st) ->
  nsize > osize -> fst (alloc st ptr osize nsize) <> NULL ->
  nsize - osize <= available st /\
  available (snd (alloc st ptr osize nsize)) = available st - (nsize - osize).
Proof.
  intros Hst Hgrow. unfold l_alloc_restricted.
  destruct (nsize =? 0); [simpl; congruence |].
  replace (nsize >? osize) with true by (symmetry; apply Z.gtb_lt; lia).
  destruct (Z.ltb_spec (available st) (nsize - osize)) as [Hl | Hl];
    simpl; [congruence |].
  destruct (c_realloc (c_heap st) ptr nsize) as [ptr' h'].
  destruct (Z.eqb_spec ptr' NULL) as [-> | Hp]; simpl; [congruence |].
  intros _. split; [exact Hl |].
  apply size_wrap_small. unfold is_size_t in *. lia.
Qed.

(** C2. A request to grow a block by more than what is left of the budget
    is refused: the allocator returns [NULL], calls neither [free] nor
    [realloc] (the record of library calls and the C heap are those of
    before) and logs the refusal.  And whenever an allocation ([nsize]
    not 0) returns [NULL], for lack of budget or because [realloc] did,
    the counter is the one of before the call. *)
Theorem failed_allocation_keeps_quota st ptr osize nsize :
  0 <= osize ->
  (nsize > osize -> available st < nsize - osize ->
   alloc st ptr osize nsize
   = (NULL, {| available := available st; c_heap := c_heap st;
               calls := calls st;
               log := log st ++ [LogError "Out of memory!" []] |}))
  /\ (nsize <> 0 -> fst (alloc st ptr osize nsize) = NULL ->
      available (snd (alloc st ptr osize nsize)) = available st).
Proof.
  intros Hos. split.
  - intros Hgrow Hlack. apply alloc_refused; lia.
  - intros Hn.
    destruct (classic_quota st osize nsize) as [[Hg Hl] | Hok].
    + rewrite alloc_refused by lia. reflexivity.
    + rewrite alloc_resize by assumption.
      destruct (c_realloc (c_heap st) ptr nsize) as [ptr' h']. simpl.
      intros ->. reflexivity.
Qed.

(** C3. The accounting of one call.  A request with [nsize = 0] is a free:
    whatever is left of the budget, the block goes to [free], the call
    returns [NULL] (what the VM expects of a free) and the counter is
    credited [osize], in [size_t] arithmetic; the credit is the plain sum
    as long as the sum is a [size_t].  A resize that succeeds debits
    [nsize - osize] when the block grows, with no wrap-around, and credits
    [osize - nsize] when it does not. *)
Theorem quota_accounting st ptr osize nsize :
  is_size_t (available st) -> 0 <= osize ->
  let r := alloc st ptr osize nsize in
  (nsize = 0 ->
     fst r = NULL /\
     calls (snd r) = calls st ++ [Call_free ptr] /\
     c_heap (snd r) = c_free (c_heap st) ptr /\
     available (snd r) = size_add (available st) osize /\
     (available st + osize <= SIZE_MAX ->
      available (snd r) = available st + osize))
  /\ (nsize <> 0 -> fst r <> NULL ->
        (nsize > osize ->
           available (snd r) = available st - (nsize - osize)) /\
        (nsize <= osize ->
           available (snd r) = size_add (available st) (osize - nsize) /\
           (available st + (osize - nsize) <= SIZE_MAX ->
            available (snd r) = available st + (osize - nsize)))).
Proof.
  intros Hst Hos r. subst r. split.
  - intros ->. rewrite alloc_free. simpl.
    repeat split; try reflexivity.
    intros Hfit. apply size_wrap_small. unfold is_size_t in *. lia.
  - intros Hn Hp. split.
    + intros Hgrow. apply alloc_debit_exact; assumption.
    + intros Hshrink. revert Hp.
      rewrite alloc_resize by (first [assumption | lia]).
      destruct (c_realloc (c_heap st) ptr nsize) as [ptr' h']. simpl.
      destruct (Z.eqb_spec ptr' NULL) as [-> | _]; [congruence |].
      replace (nsize >? osize) with false
        by (symmetry; rewrite Z.gtb_ltb; apply Z.ltb_ge; lia).
      intros _. split; [reflexivity |].
      intros Hfit. apply size_wrap_small. unfold is_size_t in *. lia.
Qed.

(** Along a run of requests the counter stays a [size_t]. *)
Lemma serve_invariant reqs : forall st,
  is_size_t (available st) ->
  Forall (fun sv =>
            is_size_t (available (sv_before sv)) /\
            sv_result sv
            = fst (alloc (sv_before sv) (rq_ptr (sv_request sv))
                     (rq_osize (sv_request sv)) (rq_nsize (sv_request sv))) /\
            sv_after sv
            = snd (alloc (sv_before sv) (rq_ptr (sv_request sv))
                     (rq_osize (sv_request sv)) (rq_nsize (sv_request sv))))
         (serve c_free c_realloc st reqs).
Proof.
  induction reqs as [| rq reqs IH]; intros st Hst; simpl.
  - constructor.
  - pose proof (alloc_available_range st (rq_ptr rq) (rq_osize rq) (rq_nsize rq) Hst) as Hnext.
    destruct (alloc st (rq_ptr rq) (rq_osize rq) (rq_nsize rq)) as [p st'] eqn:E.
    constructor.
    + simpl. rewrite E. auto.
    + apply IH. exact Hnext.
Qed.

(** C5. From a counter started at [max_memory], after every call of any
    sequence of allocations, frees and resizes the counter is at least 0,
    and every debit that is carried out (a block grows and the call
    succeeds) is covered by what was left: the new value is the old one
    minus the growth as integers, with nothing borrowed from the
    wrap-around of [size_t]. *)
Theorem quota_never_underflows max_memory h reqs :
  0 < max_memory <= SIZE_MAX ->
  Forall (fun sv =>
            0 <= available (sv_after sv) /\
            (rq_nsize (sv_request sv) > rq_osize (sv_request sv) ->
             sv_result sv <> NULL ->
             rq_nsize (sv_request sv) - rq_osize (sv_request sv)
             <= available (sv_before sv) /\
             available (sv_after sv)
             = available (sv_before sv)
               - (rq_nsize (sv_request sv) - rq_osize (sv_request sv))))
         (serve c_free c_realloc (initial max_memory h) reqs).
Proof.
  intros Hmax.
  eapply Forall_impl;
    [apply serve_invariant; unfold is_size_t; simpl; lia |].
  intros sv (Hb & Hr & Ha). rewrite Hr, Ha. split.
  - apply alloc_available_range. exact Hb.
  - intros Hgrow Hp. apply alloc_debit_exact; assumption.
Qed.

End QuotaFacts.

Example alloc_within_budget :
  Quota.l_alloc_restricted Quota.arena_free Quota.arena_realloc tight 0 0 8
  = (101, Quota.State 2 92 [Quota.Call_realloc 0 8] []).
Proof. reflexivity. Qed.

Example alloc_beyond_budget :
  Quota.l_alloc_restricted Quota.arena_free Quota.arena_realloc tight 0 4 20
  = (NULL, Quota.State 10 100 [] [LogError "Out of memory!" []]).
Proof. reflexivity. Qed.

Example alloc_realloc_fails :
  Quota.l_alloc_restricted Quota.arena_free Quota.arena_realloc
    (Quota.State 500 100 [] []) 0 0 200
  = (NULL, Quota.State 500 100 [Quota.Call_realloc 0 200] []).
Proof. reflexivity. Qed.

Lemma failed_allocation_keeps_quota_witness :
  0 <= 4 /\ 20 > 4 /\ Quota.available tight < 20 - 4 /\
  Quota.l_alloc_restricted Quota.arena_free Quota.arena_realloc tight 0 4 20
  = (NULL, Quota.State 10 100 [] [LogError "Out of memory!" []]) /\
  Quota.available
    (snd (Quota.l_alloc_restricted Quota.arena_free Quota.arena_realloc tight 0 4 20))
  = 10.
Proof.
  destruct (failed_allocation_keeps_quota Quota.arena_free Quota.arena_realloc
              tight 0 4 20 ltac:(lia)) as [Hrefuse Hkeep].
  split; [lia |]. split; [lia |]. split; [simpl; lia |]. split.
  - apply Hrefuse; simpl; lia.
  - apply Hkeep; [lia | reflexivity].
Defined.

Lemma quota_accounting_witness :
  Quota.available
    (snd (Quota.l_alloc_restricted Quota.arena_free Quota.arena_realloc tight 7 6 0))
  = 16 /\
  Quota.available
    (snd (Quota.l_alloc_restricted Quota.arena_free Quota.arena_realloc tight 0 0 8))
  = 2.
Proof.
  split.
  - destruct (quota_accounting Quota.arena_free Quota.arena_realloc tight 7 6 0)
      as [Hfree _]; [in_range | lia |].
    destruct (Hfree eq_refl) as (_ & _ & _ & _ & Hsum).
    apply Hsum. in_range.
  - destruct (quota_accounting Quota.arena_free Quota.arena_realloc tight 0 0 8)
      as [_ Hresize]; [in_range | lia |].
    destruct Hresize as [Hgrow _]; [lia | simpl; unfold NULL; lia |].
    apply Hgrow. lia.
Defined.

Lemma quota_never_underflows_witness :
  Forall (fun sv => 0 <= Quota.available (Quota.sv_after sv))
         (Quota.serve Quota.arena_free Quota.arena_realloc
            (Quota.initial 10 100)
            [Quota.Request 0 0 8; Quota.Request 101 8 12; Quota.Request 101 8 0]).
Proof.
  eapply Forall_impl.
  - apply (quota_never_underflows Quota.arena_free Quota.arena_realloc 10 100).
    in_range.
  - intros sv [Hge _]. exact Hge.
Defined.

(** ** Running the C functions step by step *)

Lemma bind_run {A B} (m : M A) (f : A -> M B) (w : world) :
  (m ≫= f) w
  = match m w with
    | (Done a, w') => f a w'
    | (NoReturn, w') => (NoReturn, w')
    | (Unfinished, w') => (Unfinished, w')
    end.
Proof. reflexivity. Qed.

Lemma bind_done {A B} (m : M A) (f : A -> M B) (w w' : world) (a : A) :
  m w = (Done a, w') -> (m ≫= f) w = f a w'.
Proof. intros E. rewrite bind_run, E. reflexivity. Qed.

(** Unfolding the monad and the bookkeeping. *)
Ltac run_M :=
  cbv [mbind M_bind mret M_ret called log_error no_return get_L set_L free malloc];
  cbn.

(** ** ScriptValidator *)

Section Validator.

Variable H : host.

(** All the ways through [is_valid_lua_script]. *)
Lemma is_valid_lua_script_run filename w :
  is_valid_lua_script H filename w
  = match h_fopen H filename with
    | None =>
        (Done 0,
         World (sandbox_L w)
           (w_log w ++ [LogError "fopen(%s) error: %m" [Some filename]])
           (w_trace w ++ [Call_fopen filename]))
    | Some handle =>
        if f_close_fails handle then
          (Done 0, logged (LogError "fgetc(%s) error: %m" [Some filename])
                     (validated filename w))
        else if fgetc_first handle =? 0 then
          (Done 0, validated filename w)
        else if fgetc_first handle =? BYTECODE_MAGIC_NUMBER then
          (Done 0, logged (LogError "for security, we do not evaluate Lua bytecode" [])
                     (validated filename w))
        else (Done 1, validated filename w)
    end.
Proof.
  unfold is_valid_lua_script, validated, logged.
  destruct (h_fopen H filename) as [handle |]; [| reflexivity].
  destruct (f_close_fails handle), (fgetc_first handle =? 0),
    (fgetc_first handle =? BYTECODE_MAGIC_NUMBER);
    run_M; rewrite <- ?app_assoc; reflexivity.
Qed.

End Validator.

(** ** The record of calls only grows *)

Section Emits.

Context {P : call -> Prop}.

Lemma emits_ret {A} (a : A) : emits P (mret a).
Proof. intros w. exists []. rewrite app_nil_r. split; [reflexivity | constructor]. Qed.

Lemma emits_bind {A B} (m : M A) (f : A -> M B) :
  emits P m -> (forall a, emits P (f a)) -> emits P (m ≫= f).
Proof.
  intros Hm Hf w. rewrite bind_run.
  destruct (Hm w) as (evs & E & HP).
  destruct (m w) as [[a | |] w']; simpl in *; eauto.
  destruct (Hf a w') as (evs' & E' & HP').
  exists (evs ++ evs'). rewrite E', E, app_assoc. split; [reflexivity |].
  apply Forall_app; auto.
Qed.

Lemma emits_called c : P c -> emits P (called c).
Proof. intros Hc w. exists [c]. split; [reflexivity | repeat constructor; exact Hc]. Qed.

Lemma emits_silent {A} (m : M A) :
  (forall w, w_trace (m w).2 = w_trace w) -> emits P m.
Proof.
  intros E w. exists []. rewrite app_nil_r. split; [apply E | constructor].
Qed.

Lemma emits_log_error fmt args : emits P (log_error fmt args).
Proof. apply emits_silent. reflexivity. Qed.

Lemma emits_no_return {A} : emits P (@no_return A).
Proof. apply emits_silent. reflexivity. Qed.

Lemma emits_get_L : emits P get_L.
Proof. apply emits_silent. reflexivity. Qed.

Lemma emits_set_L L : emits P (set_L L).
Proof. apply emits_silent. reflexivity. Qed.

Lemma emits_on_L {A} (f : lua_State -> option (A * lua_State)) : emits P (on_L f).
Proof.
  apply emits_silent. intros w. unfold on_L.
  destruct (sandbox_L w) as [L |]; [| reflexivity].
  destruct (f L) as [[a L'] |]; reflexivity.
Qed.

Lemma emits_protected_call H fuel nargs nresults errfunc :
  emits P (protected_call H fuel nargs nresults errfunc).
Proof.
  apply emits_silent. intros w. unfold protected_call.
  destruct (sandbox_L w) as [L |]; [| reflexivity].
  destruct (negb _); [reflexivity |].
  destruct (l_stack L) as [| [] st]; try reflexivity.
  destruct (closures (l_heap L) !! r) as [cl |]; [| reflexivity].
  destruct (luaV_execute _ _ _ _ _ _ _ _ _) as [[[] n] |]; reflexivity.
Qed.

End Emits.

(** A call, then more calls. *)
Lemma called_then {P : call -> Prop} {A B} (c : call) (g : M A) (k : A -> M B) :
  emits P (g ≫= k) ->
  forall w, exists evs,
    w_trace (((called c;; g) ≫= k) w).2 = w_trace w ++ c :: evs /\ Forall P evs.
Proof.
  intros Hg w.
  destruct (Hg (World (sandbox_L w) (w_log w) (w_trace w ++ [c])))
    as (evs & E & HP).
  exists evs. split; [| exact HP].
  simpl in E. rewrite <- app_assoc in E. simpl in E. rewrite <- E.
  rewrite !bind_run. unfold called at 1.
  destruct (g _) as [[a | |] w']; reflexivity.
Qed.

(** Taking a composed function apart. *)
Ltac emits_step :=
  first
    [ apply emits_ret
    | apply emits_log_error
    | apply emits_no_return
    | apply emits_get_L
    | apply emits_set_L
    | apply emits_on_L
    | apply emits_protected_call
    | apply emits_called; reflexivity
    | apply emits_bind; [| intros ?]
    | match goal with
      | |- emits _ (if ?b then _ else _) => destruct b
      | |- emits _ (match ?x with _ => _ end) => destruct x
      end ].

Ltac emits_all := repeat emits_step.

Section EmitsApi.

Variable H : host.

Lemma emits_luaL_loadfile f : emits lua_call (luaL_loadfile H f).
Proof. unfold luaL_loadfile. emits_all. Qed.

Lemma emits_lua_tostring idx : emits lua_call (lua_tostring idx).
Proof. unfold lua_tostring. emits_all. Qed.

Lemma emits_lua_pcall fuel a b c : emits lua_call (lua_pcall H fuel a b c).
Proof. unfold lua_pcall. emits_all. Qed.

Lemma emits_lua_newtable : emits lua_call lua_newtable.
Proof. unfold lua_newtable. emits_all. Qed.

Lemma emits_lua_setfenv idx : emits lua_call (lua_setfenv idx).
Proof. unfold lua_setfenv. emits_all. Qed.

End EmitsApi.

(** ** [sandbox_run] around the validator *)

Section Gate.

Variable H : host.
Variables (fuel : nat) (filename : string) (environment : option string).

Lemma sandbox_run_rejected w w' :
  is_valid_lua_script H filename w = (Done 0, w') ->
  sandbox_run H fuel filename environment w = (Done (-1), w').
Proof.
  intros E. unfold sandbox_run. rewrite (bind_done _ _ _ _ _ E). reflexivity.
Qed.

Lemma sandbox_run_accepted w w' :
  is_valid_lua_script H filename w = (Done 1, w') ->
  exists evs,
    w_trace (sandbox_run H fuel filename environment w).2
    = w_trace w' ++ Call_luaL_loadfile filename :: evs
    /\ Forall lua_call evs.
Proof.
  intros E. unfold sandbox_run. rewrite (bind_done _ _ _ _ _ E).
  change (1 =? 0) with false. cbv iota.
  unfold luaL_loadfile at 1. apply called_then.
  pose proof (emits_luaL_loadfile H). pose proof emits_lua_tostring.
  pose proof (emits_lua_pcall H). pose proof emits_lua_newtable.
  pose proof emits_lua_setfenv.
  repeat first [ solve [auto] | emits_step ].
Qed.

End Gate.

Section Classification.

Variable H : host.
Variables (fuel : nat) (filename : string) (environment : option string).

(** C1. A file that opens, whose first byte is read and that closes is
    classified by this byte alone.  Byte 27, the signature of precompiled
    chunks: [is_valid_lua_script] returns 0 after logging the security
    message, and [sandbox_run] returns -1 with nothing handed to the
    loader.  Byte 0: the same, with nothing logged.  Any other byte: the
    validator returns 1, and the next call of [sandbox_run] is the load
    of this file. *)
Theorem first_byte_decides handle b bytes w :
  h_fopen H filename = Some handle ->
  f_bytes handle = b :: bytes ->
  f_read_fails handle = false ->
  f_close_fails handle = false ->
  let first_byte := Z.of_N (Byte.to_N b) in
  let security := LogError "for security, we do not evaluate Lua bytecode" [] in
  (first_byte = BYTECODE_MAGIC_NUMBER ->
     is_valid_lua_script H filename w
     = (Done 0, logged security (validated filename w)) /\
     sandbox_run H fuel filename environment w
     = (Done (-1), logged security (validated filename w)))
  /\ (first_byte = 0 ->
        is_valid_lua_script H filename w = (Done 0, validated filename w) /\
        sandbox_run H fuel filename environment w
        = (Done (-1), validated filename w))
  /\ (first_byte <> BYTECODE_MAGIC_NUMBER -> first_byte <> 0 ->
        is_valid_lua_script H filename w = (Done 1, validated filename w) /\
        exists evs,
          w_trace (sandbox_run H fuel filename environment w).2
          = w_trace (validated filename w) ++ Call_luaL_loadfile filename :: evs
          /\ Forall lua_call evs).
Proof.
  intros Hopen Hbytes Hread Hclose first_byte security.
  assert (Hfirst : fgetc_first handle = first_byte).
  { unfold fgetc_first. rewrite Hread, Hbytes. reflexivity. }
  pose proof (is_valid_lua_script_run H filename w) as Hrun.
  rewrite Hopen, Hclose, Hfirst in Hrun.
  split; [| split].
  - intros Hb. rewrite Hb in Hrun. simpl in Hrun.
    split; [exact Hrun | apply sandbox_run_rejected; exact Hrun].
  - intros Hb. rewrite Hb in Hrun. simpl in Hrun.
    split; [exact Hrun | apply sandbox_run_rejected; exact Hrun].
  - intros Hmagic Hzero.
    destruct (Z.eqb_spec first_byte 0) as [? | _]; [contradiction |].
    destruct (Z.eqb_spec first_byte BYTECODE_MAGIC_NUMBER) as [? | _];
      [contradiction |].
    split; [exact Hrun | apply sandbox_run_accepted; exact Hrun].
Qed.

(** C10. A file that opens and is empty: the first read yields [EOF],
    which is neither 0 nor 27, so the validator returns 1 and the next
    call of [sandbox_run] is the load of this file. *)
Theorem empty_file_is_accepted handle w :
  h_fopen H filename = Some handle ->
  f_bytes handle = [] ->
  f_close_fails handle = false ->
  fgetc_first handle = EOF /\
  EOF <> 0 /\ EOF <> BYTECODE_MAGIC_NUMBER /\
  is_valid_lua_script H filename w = (Done 1, validated filename w) /\
  exists evs,
    w_trace (sandbox_run H fuel filename environment w).2
    = w_trace (validated filename w) ++ Call_luaL_loadfile filename :: evs
    /\ Forall lua_call evs.
Proof.
  intros Hopen Hbytes Hclose.
  assert (Hfirst : fgetc_first handle = EOF).
  { unfold fgetc_first. rewrite Hbytes. destruct (f_read_fails handle); reflexivity. }
  pose proof (is_valid_lua_script_run H filename w) as Hrun.
  rewrite Hopen, Hclose, Hfirst in Hrun. simpl in Hrun.
  split; [exact Hfirst |].
  split; [discriminate |]. split; [discriminate |].
  split; [exact Hrun | apply sandbox_run_accepted; exact Hrun].
Qed.

End Classification.


Section Loader.

Variable H : host.

Lemma luaL_loadfile_run f w L :
  sandbox_L w = Some L ->
  luaL_loadfile H f w
  = (Done (match h_loadfile H f with
           | None => 0
           | Some (s, _) => status_code s
           end),
     loaded H f L w).
Proof.
  intros HL. unfold luaL_loadfile, loaded, on_L. run_M. rewrite HL.
  destruct (h_loadfile H f) as [[s msg] |]; reflexivity.
Qed.

End Loader.

Section Asymmetry.

Variable H : host.
Variables (fuel : nat) (filename : string) (environment : option string).



End Asymmetry.

(** ** The stack under the calls of [sandbox_run] *)

Lemma index2pos_top L v st : l_stack L = v :: st -> index2pos L (-1) = Some 0%nat.
Proof.
  intros E. unfold index2pos. rewrite E. cbn [length].
  replace (- -1 <=? Z.of_nat (S (length st))) with true
    by (symmetry; apply Z.leb_le; lia).
  reflexivity.
Qed.

Lemma index2adr_top L v st : l_stack L = v :: st -> index2adr L (-1) = Some v.
Proof.
  intros E. unfold index2adr. rewrite (index2pos_top L v st E).
  cbn. rewrite E. reflexivity.
Qed.

Lemma index2adr_second L v u st :
  l_stack L = v :: u :: st -> index2adr L (-2) = Some u.
Proof.
  intros E. unfold index2adr, index2pos. rewrite E. cbn [length].
  replace (- -2 <=? Z.of_nat (S (S (length st)))) with true
    by (symmetry; apply Z.leb_le; lia).
  reflexivity.
Qed.

Lemma insert_last {A} (l : list A) (x y : A) :
  <[length l := x]> (l ++ [y]) = l ++ [x].
Proof.
  rewrite insert_app_r_alt by lia. rewrite Nat.sub_diag. reflexivity.
Qed.

Lemma status_code_nonzero s : (status_code s =? 0) = false.
Proof. destruct s; reflexivity. Qed.

Section Steps.

Variable H : host.

Lemma lua_newtable_run w L :
  sandbox_L w = Some L ->
  lua_newtable w
  = (Done tt,
     World (Some (push (LTable (length (tables (l_heap L))))
                    (set_heap L (Heap (tables (l_heap L) ++ [∅])
                                   (closures (l_heap L))))))
       (w_log w) (w_trace w ++ [Call_lua_newtable])).
Proof. intros HL. unfold lua_newtable, on_L. run_M. rewrite HL. reflexivity. Qed.

(** The table on top becomes the environment of the closure below it. *)
Lemma lua_setfenv_closure w L t r cl st :
  sandbox_L w = Some L ->
  l_stack L = LTable t :: LFunction r :: st ->
  closures (l_heap L) !! r = Some cl ->
  lua_setfenv (-2) w
  = (Done 1,
     World (Some (set_stack
                    (set_heap L (Heap (tables (l_heap L))
                                   (<[r := Closure (cl_code cl) t]>
                                      (closures (l_heap L)))))
                    (LFunction r :: st)))
       (w_log w) (w_trace w ++ [Call_lua_setfenv (-2)])).
Proof.
  intros HL Hst Hcl. unfold lua_setfenv, on_L. run_M. rewrite HL.
  rewrite (index2adr_second L _ _ _ Hst), Hst. cbn. rewrite Hcl. reflexivity.
Qed.

(** The protected call of a closure on top of the stack. *)
Lemma lua_pcall_closure fuel w L r cl st :
  sandbox_L w = Some L ->
  l_stack L = LFunction r :: st ->
  closures (l_heap L) !! r = Some cl ->
  lua_pcall H fuel 0 1 0 w
  = let w' := World (sandbox_L w) (w_log w) (w_trace w ++ [Call_lua_pcall 0 1 0]) in
    let finish st h n :=
      World (Some (LuaState st h (l_quota L) (l_hook L) (l_hookmask L)
                     (l_basehookcount L) n))
        (w_log w) (w_trace w ++ [Call_lua_pcall 0 1 0]) in
    match luaV_execute (h_step H) (h_heap_at H) (h_where_at H)
            (l_hook L) (l_hookmask L) (l_basehookcount L)
            fuel (l_hookcount L)
            (h_enter H (cl_code cl) (cl_env cl) (l_heap L)) with
    | Some (Returned v h, n) => (Done 0, finish (v :: st) h n)
    | Some (Failed s e h, n) => (Done (status_code s), finish (e :: st) h n)
    | None => (Unfinished, w')
    end.
Proof.
  intros HL Hst Hcl. unfold lua_pcall, protected_call. run_M.
  rewrite HL, Hst, Hcl. reflexivity.
Qed.

End Steps.

Section EmptyEnvironment.

Variable H : host.
Variables (fuel : nat) (filename : string).

Lemma is_valid_lua_script_accepts w :
  (is_valid_lua_script H filename w).1 = Done 1 ->
  is_valid_lua_script H filename w = (Done 1, validated filename w).
Proof.
  rewrite is_valid_lua_script_run.
  destruct (h_fopen H filename) as [handle |]; [| discriminate].
  destruct (f_close_fails handle); [discriminate |].
  destruct (fgetc_first handle =? 0); [discriminate |].
  destruct (fgetc_first handle =? BYTECODE_MAGIC_NUMBER); [discriminate |].
  reflexivity.
Qed.

(** [lua_tostring (L, -1)] on any value. *)
Lemma lua_tostring_top_run w L v st :
  sandbox_L w = Some L -> l_stack L = v :: st ->
  lua_tostring (-1) w
  = (Done (tostring_of v),
     World (Some (set_stack L (converted v :: st)))
       (w_log w) (w_trace w ++ [Call_lua_tostring (-1)])).
Proof.
  intros HL Hst. unfold lua_tostring, on_L. run_M. rewrite HL.
  rewrite (index2pos_top L _ _ Hst). cbn. rewrite Hst. cbn.
  destruct L as [st0 h0 q hk m b c]. cbn in Hst. subst st0.
  destruct v; reflexivity.
Qed.

(** With no environment-builder, a target that is accepted and compiles:
    the whole of [sandbox_run], by the outcome of the chunk. *)
Lemma sandbox_run_no_builder w L :
  sandbox_L w = Some L ->
  (is_valid_lua_script H filename w).1 = Done 1 ->
  h_loadfile H filename = None ->
  let t := length (tables (l_heap L)) in
  let h := Heap (tables (l_heap L) ++ [∅])
                (closures (l_heap L) ++ [Closure filename t]) in
  let vm st h n :=
    Some (LuaState st h (l_quota L) (l_hook L) (l_hookmask L)
            (l_basehookcount L) n) in
  let tr := w_trace (validated filename w)
            ++ [Call_luaL_loadfile filename; Call_lua_newtable;
                Call_lua_setfenv (-2); Call_lua_pcall 0 1 0] in
  sandbox_run H fuel filename None w
  = match luaV_execute (h_step H) (h_heap_at H) (h_where_at H)
            (l_hook L) (l_hookmask L) (l_basehookcount L)
            fuel (l_hookcount L) (h_enter H filename t h) with
    | Some (Returned v h', n) =>
        (Done 0, World (vm (v :: l_stack L) h' n) (w_log w) tr)
    | Some (Failed s e h', n) =>
        (Done (-1),
         World (vm (converted e :: l_stack L) h' n)
           (w_log w ++ [LogError "error running %s: %s"
                          [Some filename; tostring_of e]])
           (tr ++ [Call_lua_tostring (-1)]))
    | None =>
        (Unfinished,
         World (vm (LFunction (length (closures (l_heap L))) :: l_stack L)
                  h (l_hookcount L))
           (w_log w) tr)
    end.
Proof.
  intros HL Hvalid Hload t h vm tr.
  apply is_valid_lua_script_accepts in Hvalid.
  unfold sandbox_run. cbv [mbind M_bind mret M_ret].
  rewrite Hvalid. cbv beta iota. change (1 =? 0) with false. cbv beta iota.
  rewrite (luaL_loadfile_run H filename (validated filename w) L HL).
  unfold loaded. rewrite Hload. change (negb (0 =? 0)) with false. cbv beta iota.
  erewrite lua_newtable_run; [| reflexivity]. cbv beta iota.
  erewrite lua_setfenv_closure;
    [| reflexivity | reflexivity | cbn; apply list_lookup_middle; reflexivity ].
  change (negb (1 =? 1)) with false. cbv beta iota.
  erewrite lua_pcall_closure;
    [| reflexivity | reflexivity
     | cbn; rewrite insert_last; apply list_lookup_middle; reflexivity ].
  subst h t vm tr. cbn -[luaV_execute]. rewrite insert_last.
  destruct (luaV_execute _ _ _ _ _ _ _ _ _) as [[[v h' | s e h'] n] |] eqn:Erun.
  - cbn. rewrite <- !app_assoc. reflexivity.
  - rewrite status_code_nonzero. cbn.
    erewrite lua_tostring_top_run; [| reflexivity | reflexivity].
    cbn. rewrite <- !app_assoc. reflexivity.
  - rewrite <- !app_assoc. reflexivity.
Qed.

(** C8. With no environment-builder, a target that is accepted and
    compiles is run as follows: a table is created, which is none of the
    tables that existed and is empty; it is made the environment of the
    chunk; and only then is the chunk called, in a heap where every global
    name resolves to nil in that environment. *)
Theorem empty_environment_without_builder w L :
  sandbox_L w = Some L ->
  (is_valid_lua_script H filename w).1 = Done 1 ->
  h_loadfile H filename = None ->
  let t := length (tables (l_heap L)) in
  let h := Heap (tables (l_heap L) ++ [∅])
                (closures (l_heap L) ++ [Closure filename t]) in
  tables (l_heap L) !! t = None /\
  tables h !! t = Some ∅ /\
  (forall name, rawget h t name = LNil) /\
  closures h !! length (closures (l_heap L)) = Some (Closure filename t) /\
  (exists evs,
     w_trace (sandbox_run H fuel filename None w).2
     = w_trace (validated filename w)
       ++ [Call_luaL_loadfile filename; Call_lua_newtable;
           Call_lua_setfenv (-2); Call_lua_pcall 0 1 0] ++ evs) /\
  (sandbox_run H fuel filename None w).1
  = match luaV_execute (h_step H) (h_heap_at H) (h_where_at H)
            (l_hook L) (l_hookmask L) (l_basehookcount L)
            fuel (l_hookcount L) (h_enter H filename t h) with
    | Some (Returned _ _, _) => Done 0
    | Some (Failed _ _ _, _) => Done (-1)
    | None => Unfinished
    end.
Proof.
  intros HL Hvalid Hload t h.
  assert (Hfresh : tables (l_heap L) !! t = None)
    by (apply lookup_ge_None; subst t; lia).
  assert (Hnew : tables h !! t = Some ∅).
  { subst h t. simpl. apply list_lookup_middle. reflexivity. }
  split; [exact Hfresh |]. split; [exact Hnew |].
  split; [intros name; unfold rawget; rewrite Hnew; reflexivity |].
  split; [subst h; simpl; apply list_lookup_middle; reflexivity |].
  rewrite (sandbox_run_no_builder w L HL Hvalid Hload). cbv zeta. fold t h.
  destruct (luaV_execute _ _ _ _ _ _ _ _ _) as [[[v h' | s e h'] n] |]; cbn.
  - split; [exists []; reflexivity | reflexivity].
  - split; [| reflexivity].
    exists [Call_lua_tostring (-1)]. rewrite <- !app_assoc. reflexivity.
  - split; [exists []; reflexivity | reflexivity].
Qed.


End EmptyEnvironment.

(** The validator on the files of the demonstration host. *)

Example bytecode_is_rejected :
  (sandbox_run Demo.plain 10 "compiled.luac" None Demo.ready).1 = Done (-1).
Proof. reflexivity. Qed.

Example source_is_run :
  (sandbox_run Demo.plain 10 "probe.lua" None Demo.ready).1 = Done 0.
Proof. reflexivity. Qed.

Lemma first_byte_decides_witness :
  sandbox_run Demo.plain 10 "compiled.luac" None Demo.ready
  = (Done (-1),
     logged (LogError "for security, we do not evaluate Lua bytecode" [])
       (validated "compiled.luac" Demo.ready))
  /\ sandbox_run Demo.plain 10 "zero.bin" None Demo.ready
     = (Done (-1), validated "zero.bin" Demo.ready)
  /\ is_valid_lua_script Demo.plain "probe.lua" Demo.ready
     = (Done 1, validated "probe.lua" Demo.ready).
Proof.
  split; [| split].
  - destruct (first_byte_decides Demo.plain 10 "compiled.luac" None
                (File [Byte.x1b; Byte.x4c; Byte.x75; Byte.x61; Byte.x51] false false)
                Byte.x1b [Byte.x4c; Byte.x75; Byte.x61; Byte.x51] Demo.ready
                eq_refl eq_refl eq_refl eq_refl) as (Hmagic & _ & _).
    apply Hmagic. reflexivity.
  - destruct (first_byte_decides Demo.plain 10 "zero.bin" None
                (File [Byte.x00; Byte.x2d] false false)
                Byte.x00 [Byte.x2d] Demo.ready
                eq_refl eq_refl eq_refl eq_refl) as (_ & Hzero & _).
    apply Hzero. reflexivity.
  - destruct (first_byte_decides Demo.plain 10 "probe.lua" None
                (File (list_byte_of_string "return x") false false)
                Byte.x72 (list_byte_of_string "eturn x") Demo.ready
                eq_refl eq_refl eq_refl eq_refl) as (_ & _ & Hother).
    apply Hother; discriminate.
Defined.

Lemma empty_file_is_accepted_witness :
  is_valid_lua_script Demo.plain "empty.lua" Demo.ready
  = (Done 1, validated "empty.lua" Demo.ready).
Proof.
  apply (empty_file_is_accepted Demo.plain 10 "empty.lua" None
           (File [] false false) Demo.ready eq_refl eq_refl eq_refl).
Defined.


Example builder_is_not_validated :
  (sandbox_run Demo.plain 10 "compiled.luac" None Demo.ready).1 = Done (-1) /\
  (sandbox_run Demo.plain 10 "probe.lua" (Some "compiled.luac") Demo.ready).1 = Done 0.
Proof. split; reflexivity. Qed.

Lemma empty_environment_without_builder_witness :
  (sandbox_run Demo.plain 10 "probe.lua" None Demo.ready).1 = Done 0 /\
  rawget (l_heap Demo.vm) GLOBALS "print" = LCFunction "print" /\
  rawget (Heap (tables (l_heap Demo.vm) ++ [∅])
            (closures (l_heap Demo.vm) ++ [Closure "probe.lua" 3]))
    3 "print" = LNil.
Proof.
  destruct (empty_environment_without_builder Demo.plain 10 "probe.lua"
              Demo.ready Demo.vm eq_refl eq_refl eq_refl)
    as (_ & _ & Hnil & _ & _ & Hrun).
  split; [rewrite Hrun; reflexivity |].
  split; [reflexivity | apply (Hnil "print")].
Defined.

(** A script finds what its environment-builder returned, and nothing
    without one. *)
Example builder_provides_x :
  (l_stack <$> sandbox_L
     (sandbox_run Demo.plain 10 "probe.lua" (Some "api.lua") Demo.ready).2)
  = Some [LNumber 5] /\
  (l_stack <$> sandbox_L
     (sandbox_run Demo.plain 10 "probe.lua" None Demo.ready).2)
  = Some [LNil].
Proof. split; reflexivity. Qed.

(** ** C strings *)









(** ** Tables *)

Lemma rawget_rawset_other h r k v r' k' :
  r <> r' -> rawget (rawset h r k v) r' k' = rawget h r' k'.
Proof.
  intros Hne. unfold rawget, rawset.
  destruct (tables h !! r) as [t |]; [| reflexivity].
  cbn [tables]. rewrite list_lookup_insert_ne by exact Hne. reflexivity.
Qed.


(** ** PathExtender *)

Ltac exec :=
  cbv [mbind M_bind mret M_ret called log_error no_return get_L set_L free malloc on_L
       luaL_newstate lua_newstate lua_atpanic lua_sethook luaL_openlibs
       lua_pushstring lua_setglobal lua_newtable censorscope_options_lua
       sprintf_malloc lua_getglobal lua_getfield lua_tostring lua_pop lua_setfield];
  cbn -[map_insert gmap_lookup map_union map_singleton map_delete c_str strlen
        String.append to_int size_wrap snprintf_s_semi_s Z.gtb rawget rawset].

Section PathExtender.

Variable H : host.

(** The two ways through [prepend_package_path] on a VM whose global
    [package] is a table with a string in [path]. *)
Lemma prepend_package_path_run new_entry w L r cur :
  sandbox_L w = Some L ->
  rawget (l_heap L) GLOBALS "package" = LTable r ->
  rawget (l_heap L) r "path" = LString cur ->
  let n := size_wrap (to_int (size_wrap (strlen (c_str cur) + strlen new_entry + 1 + 1))) in
  let new_path := snprintf_s_semi_s n new_entry (c_str cur) in
  let reads := [Call_lua_getglobal "package"; Call_lua_getfield (-1) "path";
                Call_lua_tostring (-1); Call_malloc n] in
  prepend_package_path H new_entry w
  = if h_malloc H n then
      (Done 0,
       World (Some (LuaState (l_stack L)
                      (rawset (l_heap L) r "path" (LString (c_str new_path)))
                      (l_quota L) (l_hook L) (l_hookmask L)
                      (l_basehookcount L) (l_hookcount L)))
         (w_log w)
         (w_trace w ++ reads ++
            [Call_lua_pop 1; Call_lua_pushstring new_path; Call_free;
             Call_lua_setfield (-2) "path"; Call_lua_pop 1]))
    else
      (Done (-1),
       World (Some (push (LString cur) (push (LTable r) L)))
         (w_log w) (w_trace w ++ reads)).
Proof.
  intros HL Hpkg Hpath n new_path reads. subst n new_path reads.
  unfold prepend_package_path. exec. rewrite HL. exec.
  rewrite Hpkg.
  erewrite index2adr_top by reflexivity. exec. rewrite Hpath.
  erewrite index2pos_top by reflexivity. exec.
  destruct (h_malloc H _); exec.
  - replace (1 <=? Z.of_nat (S (S (length (l_stack L))))) with true
      by (symmetry; apply Z.leb_le; lia).
    change (Z.to_nat 1) with 1%nat. exec.
    erewrite index2adr_second by reflexivity. exec.
    replace (1 <=? Z.of_nat (S (length (l_stack L)))) with true
      by (symmetry; apply Z.leb_le; lia).
    exec. rewrite <- !app_assoc. reflexivity.
  - rewrite <- !app_assoc. reflexivity.
Qed.

End PathExtender.

Ltac exec_heap :=
  cbv [mbind M_bind mret M_ret called log_error no_return get_L set_L free malloc on_L
       luaL_newstate lua_newstate lua_atpanic lua_sethook luaL_openlibs
       lua_pushstring lua_setglobal lua_newtable censorscope_options_lua
       sprintf_malloc lua_getglobal lua_getfield lua_tostring lua_pop lua_setfield];
  cbn -[map_insert gmap_lookup map_union map_singleton map_delete c_str strlen
        String.append to_int size_wrap snprintf_s_semi_s Z.gtb].

Section Init.

Variable H : host.
Variables (name : string) (options : censorscope_options_t).

Lemma sandbox_init_no_vm w :
  h_newstate H (vm_quota options) = false ->
  sandbox_init H name options w
  = (Done (-1),
     World None (w_log w ++ [LogError "error calling luaL_newstate" []])
       (w_trace w ++ [newstate_call options])).
Proof.
  unfold vm_quota, newstate_call. intros Hnew. unfold sandbox_init.
  destruct (max_memory options >? 0); exec_heap; rewrite Hnew; reflexivity.
Qed.

Lemma sandbox_init_no_options w :
  h_newstate H (vm_quota options) = true ->
  h_options_lua H = false ->
  sandbox_init H name options w
  = (Done (-1),
     World (Some (unfinished_vm H name options))
       (w_log w ++ [LogError "error creating table of censorscope options" []])
       (w_trace w ++ preparation name options)).
Proof.
  unfold vm_quota, preparation, newstate_call, hook_calls, unfinished_vm,
    with_hook, vm_quota, installed_hook.
  intros Hnew Hopt. unfold sandbox_init.
  destruct (max_memory options >? 0); exec_heap; rewrite Hnew; exec_heap;
    destruct (max_instructions options >? 0); exec_heap; rewrite Hopt; exec_heap;
    rewrite <- !app_assoc; reflexivity.
Qed.

(** With a VM and its table of options, [sandbox_init] reaches the
    PathExtender, lines 158 to 168. *)
Lemma sandbox_init_prepared w :
  h_newstate H (vm_quota options) = true ->
  h_options_lua H = true ->
  sandbox_init H name options w
  = let w0 :=
      World (Some (prepared H name options)) (w_log w)
        (w_trace w ++ preparation name options
           ++ [Call_lua_setglobal "CENSORSCOPE_OPTIONS";
               Call_sprintf_malloc (luasrc_dir options ++ "/?.lua")]) in
    if h_malloc H (strlen (luasrc_dir options ++ "/?.lua") + 1) then
      (r ← prepend_package_path H (c_str (luasrc_dir options ++ "/?.lua"));
       if negb (r =? 0) then
         log_error "error setting packages.path" [];;
         free;;
         mret (-1)
       else
         free;;
         mret 0) w0
    else (Done (-1), w0).
Proof.
  unfold vm_quota, preparation, newstate_call, hook_calls, prepared,
    with_hook, vm_quota, installed_hook.
  intros Hnew Hopt. unfold sandbox_init.
  destruct (max_memory options >? 0); exec_heap; rewrite Hnew; exec_heap;
    destruct (max_instructions options >? 0); exec_heap; rewrite Hopt; exec_heap;
    rewrite <- !app_assoc; cbn [app];
    destruct (h_malloc H _); reflexivity.
Qed.

Lemma prepared_package :
  rawget (l_heap (prepared H name options)) GLOBALS "package" = LTable 1.
Proof.
  unfold rawget, prepared, with_hook, initial_globals, GLOBALS. cbn [l_heap tables].
  change ([?a; ?b; ?c] !! 0%nat) with (Some a). cbv beta iota.
  rewrite !lookup_insert_ne by discriminate.
  rewrite lookup_insert_eq. reflexivity.
Qed.

Lemma prepared_path :
  rawget (l_heap (prepared H name options)) 1 "path"
  = LString (c_str (h_lua_path H)).
Proof.
  unfold rawget, prepared, with_hook, initial_package. cbn [l_heap tables].
  change ([?a; ?b; ?c] !! 1%nat) with (Some b). cbv beta iota.
  rewrite lookup_singleton_eq. reflexivity.
Qed.


End Init.

(** ** InstructionLimiter *)

Section Hook.

Context {conf : Type}.
Variable step : conf -> vm_step conf.
Variable heap_at : conf -> heap.
Variable where_at : conf -> string.


(** With [exit_hook] as count hook of period [N] and [k + 1] on the
    counter, a script that is still running after [k] instructions is
    stopped there, before its next instruction, by the error of the hook;
    the counter starts again at [N]. *)
Lemma luaV_execute_limit N k : forall c c' fuel,
  advance step k c = Some c' ->
  (k < fuel)%nat ->
  luaV_execute step heap_at where_at (Some exit_hook) LUA_MASKCOUNT N
    fuel (Z.of_nat (S k)) c
  = Some (Failed ErrRun (LString (where_at c' ++ "instruction limit reached"))
            (heap_at c'), N).
Proof.
  induction k as [| k IH]; intros c c' fuel Hrun Hfuel;
    (destruct fuel as [| fuel]; [lia |]).
  - simpl in Hrun. injection Hrun as <-. reflexivity.
  - cbn [advance] in Hrun.
    destruct (step c) as [c1 | |] eqn:Hstep; try discriminate.
    cbn [luaV_execute].
    change (negb (Z.land LUA_MASKCOUNT LUA_MASKCOUNT =? 0)) with true.
    cbv iota.
    replace (Z.of_nat (S (S k)) - 1) with (Z.of_nat (S k)) by lia.
    replace (Z.of_nat (S k) =? 0) with false by (symmetry; apply Z.eqb_neq; lia).
    cbn [andb]. cbv iota. rewrite Hstep.
    apply IH; [exact Hrun | lia].
Qed.

(** A script that returns before the counter is used up is not
    disturbed. *)
Lemma luaV_execute_within N j : forall k c c' v h fuel,
  advance step j c = Some c' ->
  step c' = VmReturn v h ->
  (j < k)%nat -> (j < fuel)%nat ->
  luaV_execute step heap_at where_at (Some exit_hook) LUA_MASKCOUNT N
    fuel (Z.of_nat (S k)) c
  = Some (Returned v h, Z.of_nat (k - j)).
Proof.
  induction j as [| j IH]; intros k c c' v h fuel Hrun Hret Hk Hfuel;
    (destruct fuel as [| fuel]; [lia |]);
    (destruct k as [| k]; [lia |]);
    cbn [luaV_execute];
    change (negb (Z.land LUA_MASKCOUNT LUA_MASKCOUNT =? 0)) with true;
    cbv iota;
    replace (Z.of_nat (S (S k)) - 1) with (Z.of_nat (S k)) by lia;
    replace (Z.of_nat (S k) =? 0) with false by (symmetry; apply Z.eqb_neq; lia);
    cbn [andb]; cbv iota.
  - simpl in Hrun. injection Hrun as <-. rewrite Hret. reflexivity.
  - cbn [advance] in Hrun.
    destruct (step c) as [c1 | |] eqn:Hstep; try discriminate.
    replace (S k - S j)%nat with (k - j)%nat by lia.
    apply (IH k c1 c' v h fuel); [exact Hrun | exact Hret | lia | lia].
Qed.

End Hook.

Section Installed.

Variable H : host.
Variables (name : string) (options : censorscope_options_t).

Lemma hook_state_with_hook st h :
  hook_state (with_hook options st h) = installed_hook options.
Proof.
  unfold hook_state, with_hook. cbn.
  destruct (installed_hook options) as [[[f m] b] c]. reflexivity.
Qed.

(** Whenever the VM is created, [sandbox_init] leaves it with the hook of
    [installed_hook], and calls [lua_sethook] nowhere but in
    [preparation]. *)
Lemma sandbox_init_vm w :
  h_newstate H (vm_quota options) = true ->
  exists L evs,
    sandbox_L (sandbox_init H name options w).2 = Some L /\
    hook_state L = installed_hook options /\
    w_trace (sandbox_init H name options w).2
    = w_trace w ++ preparation name options ++ evs /\
    Forall (fun c => is_sethook c = false) evs.
Proof.
  intros Hnew. destruct (h_options_lua H) eqn:Hopt.
  - rewrite (sandbox_init_prepared H name options w Hnew Hopt). cbv zeta.
    destruct (h_malloc H _).
    + set (w0 := World _ _ _).
      pose proof (prepend_package_path_run H
                    (c_str (luasrc_dir options ++ "/?.lua")) w0
                    (prepared H name options) 1 _ eq_refl
                    (prepared_package H name options)
                    (prepared_path H name options)) as Hrun.
      cbv zeta in Hrun. rewrite bind_run, Hrun.
      destruct (h_malloc H _);
        [change (negb (0 =? 0)) with false | change (negb (-1 =? 0)) with true];
        cbv [mbind M_bind mret M_ret log_error free called];
        subst w0; cbn [sandbox_L w_log w_trace fst snd];
        eexists; eexists;
        (split; [reflexivity |]);
        (split; [exact (hook_state_with_hook [] (Heap [] [])) |]);
        rewrite <- ?app_assoc;
        (split; [reflexivity | repeat constructor]).
    + eexists; eexists. split; [reflexivity |].
      split; [apply hook_state_with_hook |].
      cbn. split; [reflexivity | repeat constructor].
  - rewrite (sandbox_init_no_options H name options w Hnew Hopt).
    exists (unfinished_vm H name options), [].
    split; [reflexivity |]. split; [apply hook_state_with_hook |].
    cbn. rewrite app_nil_r. split; [reflexivity | constructor].
Qed.

End Installed.

Section Limiter.

Variable H : host.
Variables (name : string) (options : censorscope_options_t).




End Limiter.

(** The PathExtender on the demonstration hosts. *)


(** The InstructionLimiter on the demonstration host: a limit of 100
    instructions and a script that never ends. *)

Example endless_script_is_stopped :
  (sandbox_run Demo.plain 200 "loop.lua" None Demo.ready).1 = Done (-1).
Proof. reflexivity. Qed.


(** C9. A file that starts with a NUL byte: [sandbox_run] returns -1 and
    the error sink has received nothing, where every other rejection of
    [is_valid_lua_script] logs its reason first. *)
Theorem nul_byte_rejected_without_message :
  sandbox_run Demo.plain 10 "zero.bin" None Demo.ready
  = (Done (-1), validated "zero.bin" Demo.ready)
  /\ quiet_failure Demo.ready (sandbox_run Demo.plain 10 "zero.bin" None Demo.ready).
Proof.
  assert (E : sandbox_run Demo.plain 10 "zero.bin" None Demo.ready
              = (Done (-1), validated "zero.bin" Demo.ready)).
  { apply sandbox_run_rejected. rewrite is_valid_lua_script_run. reflexivity. }
  split; [exact E |]. rewrite E.
  split; [exists (-1); split; [reflexivity | discriminate] | reflexivity].
Qed.

(** * More on the code *)

(** ** The allocator *)

Section QuotaMore.

Import Quota.

Context {heap : Type}.
Variable c_free : heap -> Z -> heap.
Variable c_realloc : heap -> Z -> Z -> Z * heap.

(** X1. What a block costs is given back when the block goes back to its
    former size: after a growth from [a] to [b] bytes that succeeded, a free
    (when [a = 0]) or a successful shrink back to [a] bytes leaves the
    counter where it was before the growth. *)
Theorem grow_then_give_back st ptr a b :
  is_size_t (available st) -> 0 <= a < b ->
  let r1 := l_alloc_restricted c_free c_realloc st ptr a b in
  let r2 := l_alloc_restricted c_free c_realloc (snd r1) (fst r1) b a in
  fst r1 <> NULL ->
  a = 0 \/ fst r2 <> NULL ->
  available (snd r2) = available st.
Proof.
  intros Hst Hab r1 r2 Hp1 Hp2.
  destruct (alloc_debit_exact c_free c_realloc st ptr a b Hst ltac:(lia) Hp1)
    as [Hcover Hdebit]. fold r1 in Hdebit.
  assert (Hst1 : is_size_t (available (snd r1))).
  { rewrite Hdebit. unfold is_size_t in *. lia. }
  subst r2. destruct (Z.eq_dec a 0) as [-> | Ha].
  - rewrite alloc_free. cbn [snd available]. rewrite Hdebit.
    unfold size_add. rewrite size_wrap_small; [lia |].
    unfold is_size_t in *. lia.
  - destruct Hp2 as [? | Hp2]; [contradiction |]. revert Hp2.
    rewrite alloc_resize by lia.
    destruct (c_realloc (c_heap (snd r1)) (fst r1) a) as [p2 h2]. cbn [fst snd].
    destruct (Z.eqb_spec p2 NULL) as [-> | _]; [congruence |]. intros _.
    replace (a >? b) with false by (symmetry; rewrite Z.gtb_ltb; apply Z.ltb_ge; lia).
    cbn [available]. rewrite Hdebit.
    unfold size_add. rewrite size_wrap_small; [lia |].
    unfold is_size_t in *. lia.
Qed.

(** One truthful request keeps the balance: the counter and the bytes held
    add up to the budget. *)
Lemma truthful_step st held ptr osize nsize budget :
  available st + held = budget -> 0 <= available st -> budget <= SIZE_MAX ->
  0 <= osize <= held -> 0 <= nsize ->
  let r := l_alloc_restricted c_free c_realloc st ptr osize nsize in
  let held' := Ledger.held_after held (Request ptr osize nsize) (fst r) in
  available (snd r) + held' = budget /\ 0 <= available (snd r) /\ 0 <= held'.
Proof.
  intros Hsum Hav Hmax Hos Hns r held'. subst r held'.
  unfold Ledger.held_after. cbn [rq_nsize rq_osize].
  destruct (Z.eqb_spec nsize 0) as [-> | Hn].
  - rewrite alloc_free. cbn [fst snd available].
    unfold size_add. rewrite size_wrap_small by (unfold is_size_t; lia). lia.
  - destruct (classic_quota st osize nsize) as [[Hg Hl] | Hok].
    + rewrite alloc_refused by assumption. cbn [fst snd available].
      change (NULL =? NULL) with true. lia.
    + rewrite alloc_resize by assumption.
      destruct (c_realloc (c_heap st) ptr nsize) as [p h']. cbn [fst snd available].
      destruct (Z.eqb_spec p NULL) as [-> | _]; [lia |].
      destruct (Z.gtb_spec nsize osize) as [Hg | Hg].
      * unfold size_sub. rewrite size_wrap_small by (unfold is_size_t; lia). lia.
      * unfold size_add. rewrite size_wrap_small by (unfold is_size_t; lia). lia.
Qed.

(** X2. The budget is a cap on what the VM holds.  From a counter started at
    [max_memory] with nothing held, after any run of requests in which the
    VM never gives back more than it holds, the counter is exactly
    [max_memory] minus the bytes held, and the bytes held never exceed
    [max_memory]. *)
Theorem budget_caps_held_bytes max_memory h reqs :
  0 < max_memory <= SIZE_MAX ->
  Ledger.truthful c_free c_realloc (initial max_memory h) 0 reqs ->
  let '(st, held) := Ledger.run c_free c_realloc (initial max_memory h) 0 reqs in
  available st = max_memory - held /\ 0 <= held <= max_memory.
Proof.
  intros Hmax.
  assert (Hgen : forall reqs st held,
             available st + held = max_memory -> 0 <= available st -> 0 <= held ->
             Ledger.truthful c_free c_realloc st held reqs ->
             let '(st', held') := Ledger.run c_free c_realloc st held reqs in
             available st' = max_memory - held' /\ 0 <= held' <= max_memory).
  { clear reqs. induction reqs as [| rq reqs IH]; intros st held Hsum Hav Hheld Htruth.
    - cbn. lia.
    - cbn [Ledger.run Ledger.truthful] in *.
      destruct Htruth as (Hos & Hns & Hrest).
      pose proof (truthful_step st held (rq_ptr rq) (rq_osize rq) (rq_nsize rq)
                    max_memory Hsum Hav ltac:(lia) Hos Hns) as Hstep.
      cbv zeta in Hstep. unfold Ledger.held_after in Hstep, Hrest |- *.
      cbn [rq_nsize rq_osize] in Hstep.
      destruct (l_alloc_restricted c_free c_realloc st (rq_ptr rq) (rq_osize rq)
                  (rq_nsize rq)) as [p st'].
      cbn [fst snd] in Hstep. destruct Hstep as (Hsum' & Hav' & Hheld').
      apply IH; assumption. }
  intros Htruth. apply Hgen; cbn; try lia. exact Htruth.
Qed.

(** X3. The test of the budget is exact.  A growth by all that is left is
    handed to [realloc] and, when it succeeds, leaves the counter at 0; a
    growth by one byte more is refused. *)
Theorem exact_fit_is_the_boundary st ptr osize :
  is_size_t (available st) -> 0 < available st -> 0 <= osize ->
  let fit := l_alloc_restricted c_free c_realloc st ptr osize (osize + available st) in
  let over := l_alloc_restricted c_free c_realloc st ptr osize (osize + available st + 1) in
  calls (snd fit) = calls st ++ [Call_realloc ptr (osize + available st)] /\
  (fst fit <> NULL -> available (snd fit) = 0) /\
  fst over = NULL /\ calls (snd over) = calls st /\ available (snd over) = available st.
Proof.
  intros Hst Hpos Hos fit over. subst fit over.
  rewrite (alloc_refused c_free c_realloc st ptr osize (osize + available st + 1))
    by lia.
  rewrite alloc_resize by lia.
  destruct (c_realloc (c_heap st) ptr (osize + available st)) as [p h'].
  cbn [fst snd calls available].
  split; [reflexivity |]. split; [| auto].
  intros Hp. destruct (Z.eqb_spec p NULL) as [? | _]; [contradiction |].
  replace (osize + available st >? osize) with true by (symmetry; apply Z.gtb_lt; lia).
  unfold size_sub. replace (available st - (osize + available st - osize)) with 0 by lia.
  reflexivity.
Qed.

(** X4. One effect per call, never two: a call is refused exactly when the
    block is to grow by more than what is left; a refused call logs one
    message and calls neither [free] nor [realloc]; any other call logs
    nothing and makes exactly one call, [free] for [nsize = 0] and [realloc]
    otherwise. *)
Theorem one_effect_per_call st ptr osize nsize :
  let r := l_alloc_restricted c_free c_realloc st ptr osize nsize in
  let refused := nsize <> 0 /\ nsize > osize /\ available st < nsize - osize in
  (refused ->
   log (snd r) = log st ++ [LogError "Out of memory!" []] /\
   calls (snd r) = calls st /\ fst r = NULL)
  /\ (~ refused ->
      log (snd r) = log st /\
      calls (snd r)
      = calls st ++ [if nsize =? 0 then Call_free ptr else Call_realloc ptr nsize]).
Proof.
  intros r refused. subst r refused. split.
  - intros (Hn & Hg & Hl). rewrite alloc_refused by assumption.
    cbn. auto.
  - intros Hnot. destruct (Z.eqb_spec nsize 0) as [-> | Hn].
    + rewrite alloc_free. cbn. auto.
    + rewrite alloc_resize by (first [assumption | intros [? ?]; apply Hnot; auto]).
      destruct (c_realloc (c_heap st) ptr nsize) as [p h']. cbn. auto.
Qed.

End QuotaMore.

Lemma grow_then_give_back_witness :
  Quota.available
    (snd (Quota.l_alloc_restricted Quota.arena_free Quota.arena_realloc
            (snd (Quota.l_alloc_restricted Quota.arena_free Quota.arena_realloc
                    tight 0 0 8))
            101 8 0))
  = 10.
Proof.
  apply (grow_then_give_back Quota.arena_free Quota.arena_realloc tight 0 0 8);
    [in_range | lia | vm_compute; discriminate | left; reflexivity].
Defined.

Lemma budget_caps_held_bytes_witness :
  let '(st, held) :=
    Ledger.run Quota.arena_free Quota.arena_realloc (Quota.initial 10 100) 0
      [Quota.Request 0 0 8; Quota.Request 101 8 4; Quota.Request 0 0 20] in
  Quota.available st = 10 - held /\ 0 <= held <= 10.
Proof.
  apply (budget_caps_held_bytes Quota.arena_free Quota.arena_realloc 10 100
           [Quota.Request 0 0 8; Quota.Request 101 8 4; Quota.Request 0 0 20]).
  - in_range.
  - vm_compute. repeat split; discriminate.
Defined.

Lemma exact_fit_is_the_boundary_witness :
  Quota.available
    (snd (Quota.l_alloc_restricted Quota.arena_free Quota.arena_realloc tight 0 3 13))
  = 0 /\
  fst (Quota.l_alloc_restricted Quota.arena_free Quota.arena_realloc tight 0 3 14)
  = NULL.
Proof.
  destruct (exact_fit_is_the_boundary Quota.arena_free Quota.arena_realloc tight 0 3)
    as (_ & Hfit & Hover & _); [in_range | cbn; lia | lia |].
  split; [apply Hfit; vm_compute; discriminate | exact Hover].
Defined.

Lemma one_effect_per_call_witness :
  Quota.calls
    (snd (Quota.l_alloc_restricted Quota.arena_free Quota.arena_realloc tight 0 4 20))
  = [] /\
  Quota.calls
    (snd (Quota.l_alloc_restricted Quota.arena_free Quota.arena_realloc tight 7 6 0))
  = [Quota.Call_free 7].
Proof.
  split.
  - destruct (one_effect_per_call Quota.arena_free Quota.arena_realloc tight 0 4 20)
      as [Hrefused _].
    destruct Hrefused as (_ & Hcalls & _); [cbn; lia | exact Hcalls].
  - destruct (one_effect_per_call Quota.arena_free Quota.arena_realloc tight 7 6 0)
      as [_ Hserved].
    destruct Hserved as (_ & Hcalls); [cbn; lia | exact Hcalls].
Defined.

(** ** The validator *)

Section ValidatorMore.

Variable H : host.
Variables (fuel : nat) (filename : string) (environment : option string).

(** X5. [is_valid_lua_script] returns 1 or 0, never touches the VM, logs at
    most one message, and returns 1 exactly when the file opens, closes, and
    what [fgetc] returned is neither 0 nor 27. *)
Theorem validator_accepts_iff w :
  let r := is_valid_lua_script H filename w in
  (r.1 = Done 1 \/ r.1 = Done 0) /\
  sandbox_L r.2 = sandbox_L w /\
  (exists l, w_log r.2 = w_log w ++ l /\ (length l <= 1)%nat) /\
  (r.1 = Done 1 <->
   exists handle,
     h_fopen H filename = Some handle /\ f_close_fails handle = false /\
     fgetc_first handle <> 0 /\ fgetc_first handle <> BYTECODE_MAGIC_NUMBER).
Proof.
  cbv zeta. rewrite is_valid_lua_script_run.
  destruct (h_fopen H filename) as [handle |].
  - destruct (f_close_fails handle) eqn:Hclose;
      [| destruct (Z.eqb_spec (fgetc_first handle) 0) as [Hz | Hz];
         [| destruct (Z.eqb_spec (fgetc_first handle) BYTECODE_MAGIC_NUMBER)
              as [Hm | Hm]]];
      cbn [fst snd sandbox_L w_log logged validated];
      (split; [auto |]); (split; [reflexivity |]);
      (split; [first [ exists []; rewrite app_nil_r; split; [reflexivity | cbn; lia]
                     | eexists [_]; split; [reflexivity | cbn; lia] ] |]).
    + split; [discriminate |]. intros (h' & E & Hc & _). congruence.
    + split; [discriminate |]. intros (h' & E & _ & Hnz & _). congruence.
    + split; [discriminate |]. intros (h' & E & _ & _ & Hnm). congruence.
    + split; [| reflexivity]. intros _. exists handle. auto.
  - cbn [fst snd sandbox_L w_log].
    split; [auto |]. split; [reflexivity |].
    split; [eexists [_]; split; [reflexivity | cbn; lia] |].
    split; [discriminate |]. intros (h' & E & _). discriminate.
Qed.

(** X6. A read error is not a rejection.  When the file opens and closes but
    the read fails (a directory, say), [fgetc] returns [EOF] like at the end
    of an empty file: the validator returns 1 without a message and
    [sandbox_run] goes on to load the file. *)
Theorem read_error_is_accepted handle w :
  h_fopen H filename = Some handle ->
  f_read_fails handle = true ->
  f_close_fails handle = false ->
  is_valid_lua_script H filename w = (Done 1, validated filename w) /\
  exists evs,
    w_trace (sandbox_run H fuel filename environment w).2
    = w_trace (validated filename w) ++ Call_luaL_loadfile filename :: evs.
Proof.
  intros Hopen Hread Hclose.
  assert (Hrun : is_valid_lua_script H filename w = (Done 1, validated filename w)).
  { rewrite is_valid_lua_script_run, Hopen, Hclose.
    unfold fgetc_first. rewrite Hread. reflexivity. }
  split; [exact Hrun |].
  destruct (sandbox_run_accepted H fuel filename environment w _ Hrun)
    as (evs & Etr & _).
  exists evs. exact Etr.
Qed.

(** X7. A file that cannot be opened, or whose stream fails to close, is
    rejected with one message that names the file: [sandbox_run] returns -1,
    the VM is as before and nothing goes to the loader.  When [fopen] fails
    no other stdio call is made; when [fclose] fails the message blames
    [fgetc] and the byte read plays no part. *)
Theorem io_failure_rejects w :
  (h_fopen H filename = None ->
   sandbox_run H fuel filename environment w
   = (Done (-1),
      World (sandbox_L w)
        (w_log w ++ [LogError "fopen(%s) error: %m" [Some filename]])
        (w_trace w ++ [Call_fopen filename])))
  /\ (forall handle,
        h_fopen H filename = Some handle ->
        f_close_fails handle = true ->
        sandbox_run H fuel filename environment w
        = (Done (-1),
           World (sandbox_L w)
             (w_log w ++ [LogError "fgetc(%s) error: %m" [Some filename]])
             (w_trace w ++ [Call_fopen filename; Call_fgetc; Call_fclose]))).
Proof.
  split.
  - intros Hopen. apply sandbox_run_rejected.
    rewrite is_valid_lua_script_run, Hopen. reflexivity.
  - intros handle Hopen Hclose. apply sandbox_run_rejected.
    rewrite is_valid_lua_script_run, Hopen, Hclose. reflexivity.
Qed.

End ValidatorMore.

Lemma validator_accepts_iff_witness :
  (is_valid_lua_script Demo.plain "probe.lua" Demo.ready).1 = Done 1.
Proof.
  destruct (validator_accepts_iff Demo.plain "probe.lua" Demo.ready)
    as (_ & _ & _ & Hiff).
  apply Hiff. eexists. split; [reflexivity |].
  split; [reflexivity |]. split; discriminate.
Defined.

Lemma read_error_is_accepted_witness :
  is_valid_lua_script Demo2.plain "folder" Demo.ready
  = (Done 1, validated "folder" Demo.ready).
Proof.
  apply (read_error_is_accepted Demo2.plain 10 "folder" None
           (File [] true false) Demo.ready eq_refl eq_refl eq_refl).
Defined.

Lemma io_failure_rejects_witness :
  (sandbox_run Demo.plain 10 "nowhere.lua" None Demo.ready).1 = Done (-1) /\
  (sandbox_run Demo.plain 10 "stale.lua" None Demo.ready).1 = Done (-1).
Proof.
  destruct (io_failure_rejects Demo.plain 10 "nowhere.lua" None Demo.ready)
    as [Hopen _].
  destruct (io_failure_rejects Demo.plain 10 "stale.lua" None Demo.ready)
    as [_ Hclose].
  split.
  - rewrite (Hopen eq_refl). reflexivity.
  - rewrite (Hclose _ eq_refl eq_refl). reflexivity.
Defined.

(** ** [sandbox_run] *)

Section RunMore.

Variable H : host.
Variables (fuel : nat) (filename : string).

(** X8. When the target does not compile, [sandbox_run] returns -1 after
    logging the message of the loader, whatever [environment] is: the
    environment-builder is not loaded, nothing is called, and the message
    stays on the Lua stack. *)
Theorem load_failure_is_reported environment w L s msg :
  sandbox_L w = Some L ->
  (is_valid_lua_script H filename w).1 = Done 1 ->
  h_loadfile H filename = Some (s, msg) ->
  sandbox_run H fuel filename environment w
  = (Done (-1),
     World (Some (push (LString msg) L))
       (w_log w ++ [LogError "%s" [Some (c_str msg)]])
       (w_trace (validated filename w)
          ++ [Call_luaL_loadfile filename; Call_lua_tostring (-1)])).
Proof.
  intros HL Hvalid Hload.
  apply is_valid_lua_script_accepts in Hvalid.
  unfold sandbox_run. cbv [mbind M_bind mret M_ret].
  rewrite Hvalid. cbv beta iota. change (1 =? 0) with false. cbv beta iota.
  rewrite (luaL_loadfile_run H filename (validated filename w) L HL).
  unfold loaded. rewrite Hload. rewrite status_code_nonzero. cbn [negb].
  cbv beta iota.
  erewrite lua_tostring_top_run; [| reflexivity | reflexivity].
  cbn. rewrite <- !app_assoc.
  destruct L as [st h q hk m b c]. reflexivity.
Qed.

(** With an environment-builder that compiles, returns a table and leaves
    the closure of the target alone: the whole of [sandbox_run], by the
    outcome of the target. *)
Lemma sandbox_run_builder_table e w L r hb n1 :
  sandbox_L w = Some L ->
  (is_valid_lua_script H filename w).1 = Done 1 ->
  h_loadfile H filename = None ->
  h_loadfile H e = None ->
  let target := Closure filename GLOBALS in
  let f := length (closures (l_heap L)) in
  let h := Heap (tables (l_heap L))
                ((closures (l_heap L) ++ [target]) ++ [Closure e GLOBALS]) in
  luaV_execute (h_step H) (h_heap_at H) (h_where_at H)
    (l_hook L) (l_hookmask L) (l_basehookcount L)
    fuel (l_hookcount L) (h_enter H e GLOBALS h)
  = Some (Returned (LTable r) hb, n1) ->
  closures hb !! f = Some target ->
  let hb' := Heap (tables hb) (<[f := Closure filename r]> (closures hb)) in
  let vm st h n :=
    Some (LuaState st h (l_quota L) (l_hook L) (l_hookmask L)
            (l_basehookcount L) n) in
  let tr := w_trace (validated filename w)
            ++ [Call_luaL_loadfile filename; Call_luaL_loadfile e;
                Call_lua_pcall 0 1 0; Call_lua_setfenv (-2);
                Call_lua_pcall 0 1 0] in
  sandbox_run H fuel filename (Some e) w
  = match luaV_execute (h_step H) (h_heap_at H) (h_where_at H)
            (l_hook L) (l_hookmask L) (l_basehookcount L)
            fuel n1 (h_enter H filename r hb') with
    | Some (Returned v h', n) =>
        (Done 0, World (vm (v :: l_stack L) h' n) (w_log w) tr)
    | Some (Failed s err h', n) =>
        (Done (-1),
         World (vm (converted err :: l_stack L) h' n)
           (w_log w ++ [LogError "error running %s: %s"
                          [Some filename; tostring_of err]])
           (tr ++ [Call_lua_tostring (-1)]))
    | None =>
        (Unfinished, World (vm (LFunction f :: l_stack L) hb' n1) (w_log w) tr)
    end.
Proof.
  intros HL Hvalid Hload Hbuilder target f h Hrun Hkept hb' vm tr.
  apply is_valid_lua_script_accepts in Hvalid.
  unfold sandbox_run. cbv [mbind M_bind mret M_ret].
  rewrite Hvalid. cbv beta iota. change (1 =? 0) with false. cbv beta iota.
  rewrite (luaL_loadfile_run H filename (validated filename w) L HL).
  unfold loaded at 1. rewrite Hload. change (negb (0 =? 0)) with false.
  cbv beta iota.
  erewrite luaL_loadfile_run; [| reflexivity].
  unfold loaded. rewrite Hbuilder. change (negb (0 =? 0)) with false.
  cbv beta iota.
  erewrite lua_pcall_closure;
    [| reflexivity | reflexivity | cbn; apply list_lookup_middle; reflexivity ].
  subst h target. cbn -[luaV_execute] in Hrun |- *. rewrite Hrun.
  change (negb (0 =? 0)) with false. cbv beta iota.
  erewrite lua_setfenv_closure; [| reflexivity | reflexivity | exact Hkept].
  change (negb (1 =? 1)) with false. cbv beta iota.
  erewrite lua_pcall_closure;
    [| reflexivity | reflexivity
     | cbn; apply list_lookup_insert_eq; apply lookup_lt_Some in Hkept; exact Hkept ].
  subst hb' vm tr f. cbn -[luaV_execute]. clear Hrun.
  destruct (luaV_execute _ _ _ _ _ _ _ _ _) as [[[v h' | s err h'] n] |].
  - cbn. rewrite <- !app_assoc. reflexivity.
  - rewrite status_code_nonzero. cbn.
    erewrite lua_tostring_top_run; [| reflexivity | reflexivity].
    cbn. rewrite <- !app_assoc. reflexivity.
  - rewrite <- !app_assoc. reflexivity.
Qed.

(** X9. The environment-builder is called as loaded, in the table of
    globals.  When it returns a table and has left the closure of the target
    alone, that very table, with what the builder left in it, is made the
    environment of the target before the target is called; the status of
    [sandbox_run] is then the outcome of the target. *)
Theorem builder_table_is_the_environment e w L r hb n1 :
  sandbox_L w = Some L ->
  (is_valid_lua_script H filename w).1 = Done 1 ->
  h_loadfile H filename = None ->
  h_loadfile H e = None ->
  let f := length (closures (l_heap L)) in
  let h := Heap (tables (l_heap L))
                ((closures (l_heap L) ++ [Closure filename GLOBALS])
                   ++ [Closure e GLOBALS]) in
  luaV_execute (h_step H) (h_heap_at H) (h_where_at H)
    (l_hook L) (l_hookmask L) (l_basehookcount L)
    fuel (l_hookcount L) (h_enter H e GLOBALS h)
  = Some (Returned (LTable r) hb, n1) ->
  closures hb !! f = Some (Closure filename GLOBALS) ->
  let hb' := Heap (tables hb) (<[f := Closure filename r]> (closures hb)) in
  closures hb' !! f = Some (Closure filename r) /\
  (forall k, rawget hb' r k = rawget hb r k) /\
  (sandbox_run H fuel filename (Some e) w).1
  = match luaV_execute (h_step H) (h_heap_at H) (h_where_at H)
            (l_hook L) (l_hookmask L) (l_basehookcount L)
            fuel n1 (h_enter H filename r hb') with
    | Some (Returned _ _, _) => Done 0
    | Some (Failed _ _ _, _) => Done (-1)
    | None => Unfinished
    end.
Proof.
  intros HL Hvalid Hload Hbuilder f h Hrun Hkept hb'.
  split.
  { subst hb'. cbn. apply list_lookup_insert_eq.
    apply lookup_lt_Some in Hkept. exact Hkept. }
  split; [reflexivity |].
  rewrite (sandbox_run_builder_table e w L r hb n1 HL Hvalid Hload Hbuilder
             Hrun Hkept).
  cbv zeta. fold f hb'.
  destruct (luaV_execute _ _ _ _ _ _ fuel n1 _) as [[[v h' | s err h'] n] |];
    reflexivity.
Qed.

(** [lua_setfenv (L, -2)] with something else than a table on top. *)
Lemma lua_setfenv_not_table w L v u st :
  sandbox_L w = Some L ->
  l_stack L = v :: u :: st ->
  (forall t, v <> LTable t) ->
  lua_setfenv (-2) w
  = (NoReturn, World (Some L) (w_log w) (w_trace w ++ [Call_lua_setfenv (-2)])).
Proof.
  intros HL Hst Hv. unfold lua_setfenv, on_L. run_M. rewrite HL.
  rewrite (index2adr_second L _ _ _ Hst), Hst.
  destruct v; try reflexivity; try (destruct u; reflexivity).
  exfalso. apply (Hv r). reflexivity.
Qed.

(** X10. [sandbox_run] does not check what the environment-builder returned.
    A value that is not a table goes to [lua_setfenv] all the same, outside
    the contract of that function; up to there nothing is logged and the
    target is not called. *)
Theorem builder_result_is_not_checked e w L v hb n1 :
  sandbox_L w = Some L ->
  (is_valid_lua_script H filename w).1 = Done 1 ->
  h_loadfile H filename = None ->
  h_loadfile H e = None ->
  let h := Heap (tables (l_heap L))
                ((closures (l_heap L) ++ [Closure filename GLOBALS])
                   ++ [Closure e GLOBALS]) in
  luaV_execute (h_step H) (h_heap_at H) (h_where_at H)
    (l_hook L) (l_hookmask L) (l_basehookcount L)
    fuel (l_hookcount L) (h_enter H e GLOBALS h)
  = Some (Returned v hb, n1) ->
  (forall t, v <> LTable t) ->
  (sandbox_run H fuel filename (Some e) w).1 = NoReturn /\
  w_log (sandbox_run H fuel filename (Some e) w).2 = w_log w /\
  w_trace (sandbox_run H fuel filename (Some e) w).2
  = w_trace (validated filename w)
    ++ [Call_luaL_loadfile filename; Call_luaL_loadfile e;
        Call_lua_pcall 0 1 0; Call_lua_setfenv (-2)].
Proof.
  intros HL Hvalid Hload Hbuilder h Hrun Hv.
  assert (E : sandbox_run H fuel filename (Some e) w
              = (NoReturn,
                 World (Some (LuaState
                                (v :: LFunction (length (closures (l_heap L)))
                                   :: l_stack L)
                                hb (l_quota L) (l_hook L) (l_hookmask L)
                                (l_basehookcount L) n1))
                   (w_log w)
                   (w_trace (validated filename w)
                      ++ [Call_luaL_loadfile filename; Call_luaL_loadfile e;
                          Call_lua_pcall 0 1 0; Call_lua_setfenv (-2)]))).
  { apply is_valid_lua_script_accepts in Hvalid.
    unfold sandbox_run. cbv [mbind M_bind mret M_ret].
    rewrite Hvalid. cbv beta iota. change (1 =? 0) with false. cbv beta iota.
    rewrite (luaL_loadfile_run H filename (validated filename w) L HL).
    unfold loaded at 1. rewrite Hload. change (negb (0 =? 0)) with false.
    cbv beta iota.
    erewrite luaL_loadfile_run; [| reflexivity].
    unfold loaded. rewrite Hbuilder. change (negb (0 =? 0)) with false.
    cbv beta iota.
    erewrite lua_pcall_closure;
      [| reflexivity | reflexivity | cbn; apply list_lookup_middle; reflexivity ].
    subst h. cbn -[luaV_execute] in Hrun |- *. rewrite Hrun.
    change (negb (0 =? 0)) with false. cbv beta iota.
    erewrite lua_setfenv_not_table; [| reflexivity | reflexivity | exact Hv].
    cbn. rewrite <- !app_assoc. reflexivity. }
  rewrite E. repeat split; reflexivity.
Qed.

(** X11. Nothing is ever popped.  A run without environment-builder of a
    target that is accepted and compiles, whether it ends well or in an
    error, leaves the Lua stack one value longer than it found it: the
    result of the script, or the error value. *)
Theorem run_leaves_one_value w L a w' :
  sandbox_L w = Some L ->
  (is_valid_lua_script H filename w).1 = Done 1 ->
  h_loadfile H filename = None ->
  sandbox_run H fuel filename None w = (Done a, w') ->
  exists x L', sandbox_L w' = Some L' /\ l_stack L' = x :: l_stack L.
Proof.
  intros HL Hvalid Hload.
  rewrite (sandbox_run_no_builder H fuel filename w L HL Hvalid Hload). cbv zeta.
  destruct (luaV_execute _ _ _ _ _ _ _ _ _) as [[[v h' | s err h'] n] |];
    intros E; inversion E; subst; cbn; eauto.
Qed.

End RunMore.

(** ** What [sandbox_run] can answer *)

Lemma quiet_ret {A} (a : A) : quiet (mret a).
Proof. intros w. reflexivity. Qed.

Lemma quiet_bind {A B} (m : M A) (f : A -> M B) :
  quiet m -> (forall a, quiet (f a)) -> quiet (m ≫= f).
Proof.
  intros Hm Hf w. rewrite bind_run. specialize (Hm w).
  destruct (m w) as [[a | |] w1]; cbn in *; [| exact Hm | exact Hm].
  rewrite Hf. exact Hm.
Qed.

Lemma quiet_called c : quiet (called c).
Proof. intros w. reflexivity. Qed.

Lemma quiet_on_L {A} (f : lua_State -> option (A * lua_State)) : quiet (on_L f).
Proof.
  intros w. unfold on_L. destruct (sandbox_L w) as [L |]; [| reflexivity].
  destruct (f L) as [[a L'] |]; reflexivity.
Qed.

Lemma quiet_protected_call H fuel a b c : quiet (protected_call H fuel a b c).
Proof.
  intros w. unfold protected_call.
  destruct (sandbox_L w) as [L |]; [| reflexivity].
  destruct (negb _); [reflexivity |].
  destruct (l_stack L) as [| [] st]; try reflexivity.
  destruct (closures (l_heap L) !! r) as [cl |]; [| reflexivity].
  destruct (luaV_execute _ _ _ _ _ _ _ _ _) as [[[] n] |]; reflexivity.
Qed.

Ltac quiet_all :=
  repeat first
    [ apply quiet_ret | apply quiet_called | apply quiet_on_L
    | apply quiet_protected_call | apply quiet_bind; [| intros ?] ].

Lemma quiet_luaL_loadfile H f : quiet (luaL_loadfile H f).
Proof. unfold luaL_loadfile. quiet_all. Qed.

Lemma quiet_lua_tostring idx : quiet (lua_tostring idx).
Proof. unfold lua_tostring. quiet_all. Qed.

Lemma quiet_lua_pcall H fuel a b c : quiet (lua_pcall H fuel a b c).
Proof. unfold lua_pcall. quiet_all. Qed.

Lemma quiet_lua_newtable : quiet lua_newtable.
Proof. unfold lua_newtable. quiet_all. Qed.

Lemma quiet_lua_setfenv idx : quiet (lua_setfenv idx).
Proof. unfold lua_setfenv. quiet_all. Qed.

Lemma only_fails_ret : only_fails (mret (-1)).
Proof. intros w a w' E. inversion E. reflexivity. Qed.

Lemma only_fails_bind {A} (m : M A) (f : A -> M Z) :
  (forall a, only_fails (f a)) -> only_fails (m ≫= f).
Proof.
  intros Hf w a w' E. rewrite bind_run in E.
  destruct (m w) as [[x | |] w1]; try discriminate.
  exact (Hf x w1 a w' E).
Qed.

Lemma verdict_of_fails (m : M Z) : only_fails m -> verdict m.
Proof.
  intros Hm w a w' E. rewrite (Hm w a w' E). split; [auto | discriminate].
Qed.

Lemma verdict_ret_0 : verdict (mret 0).
Proof. intros w a w' E. inversion E. auto. Qed.

Lemma verdict_bind {A} (m : M A) (f : A -> M Z) :
  quiet m -> (forall a, verdict (f a)) -> verdict (m ≫= f).
Proof.
  intros Hm Hf w a w' E. rewrite bind_run in E. specialize (Hm w).
  destruct (m w) as [[x | |] w1]; try discriminate.
  cbn in Hm. rewrite <- Hm. exact (Hf x w1 a w' E).
Qed.

Lemma block_only_fails_ret : block_only_fails (mret (Some (-1))).
Proof. intros w o w' E. inversion E. reflexivity. Qed.

Lemma block_only_fails_bind {A} (m : M A) (f : A -> M (option Z)) :
  (forall a, block_only_fails (f a)) -> block_only_fails (m ≫= f).
Proof.
  intros Hf w o w' E. rewrite bind_run in E.
  destruct (m w) as [[x | |] w1]; try discriminate.
  exact (Hf x w1 o w' E).
Qed.

Lemma block_verdict_of_fails (m : M (option Z)) :
  block_only_fails m -> block_verdict m.
Proof. intros Hm w o w' E. left. exact (Hm w o w' E). Qed.

Lemma block_verdict_ret_None : block_verdict (mret None).
Proof. intros w o w' E. inversion E. auto. Qed.

Lemma block_verdict_bind {A} (m : M A) (f : A -> M (option Z)) :
  quiet m -> (forall a, block_verdict (f a)) -> block_verdict (m ≫= f).
Proof.
  intros Hm Hf w o w' E. rewrite bind_run in E. specialize (Hm w).
  destruct (m w) as [[x | |] w1]; try discriminate.
  cbn in Hm. rewrite <- Hm. exact (Hf x w1 o w' E).
Qed.

(** After a block: a status is passed on, a fall-through goes on. *)
Lemma verdict_after_block (m : M (option Z)) (f : option Z -> M Z) :
  block_verdict m ->
  (forall s, f (Some s) = mret s) ->
  verdict (f None) ->
  verdict (m ≫= f).
Proof.
  intros Hm Hsome Hnone w a w' E. rewrite bind_run in E.
  destruct (m w) as [[o | |] w1] eqn:Em; try discriminate.
  destruct (Hm w o w1 Em) as [-> | [-> Hlog]].
  - rewrite Hsome in E. inversion E. split; [auto | discriminate].
  - rewrite <- Hlog. exact (Hnone w1 a w' E).
Qed.

Section Verdict.

Variable H : host.
Variables (fuel : nat) (filename : string) (environment : option string).

Lemma is_valid_lua_script_result w v w1 :
  is_valid_lua_script H filename w = (Done v, w1) ->
  v = 0 \/ (v = 1 /\ w_log w1 = w_log w).
Proof.
  rewrite is_valid_lua_script_run.
  destruct (h_fopen H filename) as [handle |];
    [| intros E; inversion E; auto].
  destruct (f_close_fails handle); [intros E; inversion E; auto |].
  destruct (fgetc_first handle =? 0); [intros E; inversion E; auto |].
  destruct (fgetc_first handle =? BYTECODE_MAGIC_NUMBER);
    intros E; inversion E; auto.
Qed.

(** X12. Whatever the files, the host and the state of the sandbox, when
    [sandbox_run] returns it returns 0 or -1, and it returns 0 only if it
    has logged nothing. *)
Theorem run_status_and_log w a w' :
  sandbox_run H fuel filename environment w = (Done a, w') ->
  (a = 0 \/ a = -1) /\ (a = 0 -> w_log w' = w_log w).
Proof.
  unfold sandbox_run. intros E. rewrite bind_run in E.
  destruct (is_valid_lua_script H filename w) as [[v | |] w1] eqn:Ev;
    try discriminate.
  destruct (is_valid_lua_script_result w v w1 Ev) as [-> | [-> Hlog]].
  - inversion E. split; [auto | discriminate].
  - change (1 =? 0) with false in E. cbv iota in E. rewrite <- Hlog.
    clear Ev Hlog. revert w1 a w' E.
    match goal with
    | |- forall w1 a w', ?m w1 = (Done a, w') -> _ => change (verdict m)
    end.
    apply verdict_bind; [apply quiet_luaL_loadfile | intros r].
    destruct (negb (r =? 0)).
    { apply verdict_of_fails. repeat (apply only_fails_bind; intros ?).
      apply only_fails_ret. }
    apply verdict_after_block.
    + destruct environment as [e |].
      * apply block_verdict_bind; [apply quiet_luaL_loadfile | intros r'].
        destruct (negb (r' =? 0)).
        { apply block_verdict_of_fails.
          repeat (apply block_only_fails_bind; intros ?).
          apply block_only_fails_ret. }
        apply block_verdict_bind; [apply quiet_lua_pcall | intros r''].
        destruct (negb (r'' =? 0)); [| apply block_verdict_ret_None].
        apply block_verdict_of_fails.
        repeat (apply block_only_fails_bind; intros ?).
        apply block_only_fails_ret.
      * apply block_verdict_bind; [apply quiet_lua_newtable | intros _].
        apply block_verdict_ret_None.
    + reflexivity.
    + apply verdict_bind; [apply quiet_lua_setfenv | intros r'].
      destruct (negb (r' =? 1)).
      { apply verdict_of_fails. repeat (apply only_fails_bind; intros ?).
        apply only_fails_ret. }
      apply verdict_bind; [apply quiet_lua_pcall | intros r''].
      destruct (negb (r'' =? 0)); [| apply verdict_ret_0].
      apply verdict_of_fails. repeat (apply only_fails_bind; intros ?).
      apply only_fails_ret.
Qed.

End Verdict.

(** ** The limit across runs, and no limit *)

Section LimitMore.

Variable H : host.

Lemma is_valid_lua_script_anywhere filename w w' :
  (is_valid_lua_script H filename w).1 = (is_valid_lua_script H filename w').1.
Proof.
  rewrite !is_valid_lua_script_run.
  destruct (h_fopen H filename) as [handle |]; [| reflexivity].
  destruct (f_close_fails handle); [reflexivity |].
  destruct (fgetc_first handle =? 0); [reflexivity |].
  destruct (fgetc_first handle =? BYTECODE_MAGIC_NUMBER); reflexivity.
Qed.

(** X13. The counter of the hook is the sandbox's, not the run's.  After a
    run that used [j + 1] of the [k + 1] instructions left on the counter,
    the next run is stopped as soon as its script is still running after
    [k - j - 1] instructions, however large [max_instructions] is. *)
Theorem limit_spans_runs fuel w L N k j first second c1 v h1 c2 :
  sandbox_L w = Some L ->
  hook_state L = (Some exit_hook, LUA_MASKCOUNT, N, Z.of_nat (S k)) ->
  (is_valid_lua_script H first w).1 = Done 1 ->
  h_loadfile H first = None ->
  (is_valid_lua_script H second w).1 = Done 1 ->
  h_loadfile H second = None ->
  let t := length (tables (l_heap L)) in
  let h := Heap (tables (l_heap L) ++ [∅])
                (closures (l_heap L) ++ [Closure first t]) in
  advance (h_step H) j (h_enter H first t h) = Some c1 ->
  h_step H c1 = VmReturn v h1 ->
  (j < k)%nat -> (j < fuel)%nat ->
  let t' := length (tables h1) in
  let h' := Heap (tables h1 ++ [∅]) (closures h1 ++ [Closure second t']) in
  advance (h_step H) (k - j - 1) (h_enter H second t' h') = Some c2 ->
  (k - j - 1 < fuel)%nat ->
  (sandbox_run H fuel first None w).1 = Done 0 /\
  exists w2,
    sandbox_run H fuel second None (sandbox_run H fuel first None w).2
    = (Done (-1), w2) /\
    w_log w2
    = w_log w
      ++ [LogError "error running %s: %s"
            [Some second;
             Some (c_str (h_where_at H c2 ++ "instruction limit reached"))]].
Proof.
  intros HL Hhook Hv1 Hl1 Hv2 Hl2 t h Hrun1 Hret Hjk Hfuel1 t' h' Hrun2 Hfuel2.
  unfold hook_state in Hhook. injection Hhook as Hf Hm Hb Hc.
  rewrite (sandbox_run_no_builder H fuel first w L HL Hv1 Hl1). cbv zeta.
  fold t h. rewrite Hf, Hm, Hb, Hc.
  rewrite (luaV_execute_within (h_step H) (h_heap_at H) (h_where_at H)
             N j k _ c1 v h1 fuel Hrun1 Hret Hjk Hfuel1).
  cbn [fst snd]. split; [reflexivity |].
  set (L1 := LuaState (v :: l_stack L) h1 (l_quota L) (Some exit_hook)
               LUA_MASKCOUNT N (Z.of_nat (k - j))).
  set (w1 := World (Some L1) (w_log w) _).
  assert (Hv2' : (is_valid_lua_script H second w1).1 = Done 1)
    by (rewrite (is_valid_lua_script_anywhere second w1 w); exact Hv2).
  rewrite (sandbox_run_no_builder H fuel second w1 L1 eq_refl Hv2' Hl2).
  cbv zeta. subst L1. cbn [l_heap l_hook l_hookmask l_basehookcount l_hookcount].
  fold t' h'.
  replace (k - j)%nat with (S (k - j - 1)) by lia.
  rewrite (luaV_execute_limit (h_step H) (h_heap_at H) (h_where_at H)
             N (k - j - 1) _ c2 fuel Hrun2 Hfuel2).
  eexists. split; reflexivity.
Qed.

(** Without a count hook the interpreter runs as long as the script. *)
Lemma luaV_execute_unhooked {conf : Type} (step : conf -> vm_step conf)
    heap_at where_at hook mask base :
  Z.land mask LUA_MASKCOUNT = 0 ->
  forall fuel hookcount c c',
    advance step fuel c = Some c' ->
    luaV_execute step heap_at where_at hook mask base fuel hookcount c = None.
Proof.
  intros Hmask. induction fuel as [| fuel IH]; intros hookcount c c' Hrun;
    [reflexivity |].
  cbn [advance] in Hrun. cbn [luaV_execute]. rewrite Hmask.
  change (negb (0 =? 0)) with false. cbn [andb]. cbv iota.
  destruct (step c) as [c1 | |]; try discriminate.
  exact (IH hookcount c1 c' Hrun).
Qed.

(** X14. No limit means no stop.  After a [sandbox_init] with
    [max_instructions] at most 0 the VM has no hook, and [sandbox_run] of a
    script that is still running after [fuel] instructions has not returned
    after [fuel] instructions, for every [fuel]. *)
Theorem no_limit_no_stop name options w0 fuel filename L c :
  max_instructions options <= 0 ->
  sandbox_L (sandbox_init H name options w0).2 = Some L ->
  (is_valid_lua_script H filename w0).1 = Done 1 ->
  h_loadfile H filename = None ->
  let t := length (tables (l_heap L)) in
  let h := Heap (tables (l_heap L) ++ [∅])
                (closures (l_heap L) ++ [Closure filename t]) in
  advance (h_step H) fuel (h_enter H filename t h) = Some c ->
  hook_state L = (None, 0, 0, 0) /\
  (sandbox_run H fuel filename None (sandbox_init H name options w0).2).1
  = Unfinished.
Proof.
  intros Hmax HL Hvalid Hload t h Hrun.
  assert (Hhook : hook_state L = (None, 0, 0, 0)).
  { destruct (h_newstate H (vm_quota options)) eqn:Hnew.
    - destruct (sandbox_init_vm H name options w0 Hnew)
        as (L' & evs & HL' & Hh & _).
      rewrite HL in HL'. injection HL' as <-. rewrite Hh.
      unfold installed_hook.
      replace (max_instructions options >? 0) with false
        by (symmetry; rewrite Z.gtb_ltb; apply Z.ltb_ge; lia).
      reflexivity.
    - rewrite (sandbox_init_no_vm H name options w0 Hnew) in HL. discriminate. }
  split; [exact Hhook |].
  set (w1 := (sandbox_init H name options w0).2) in *.
  assert (Hvalid' : (is_valid_lua_script H filename w1).1 = Done 1)
    by (rewrite (is_valid_lua_script_anywhere filename w1 w0); exact Hvalid).
  rewrite (sandbox_run_no_builder H fuel filename w1 L HL Hvalid' Hload).
  cbv zeta. fold t h.
  unfold hook_state in Hhook. injection Hhook as Hf Hm Hb Hc.
  rewrite (luaV_execute_unhooked (h_step H) (h_heap_at H) (h_where_at H)
             (l_hook L) (l_hookmask L) (l_basehookcount L)
             ltac:(rewrite Hm; reflexivity) fuel (l_hookcount L) _ c Hrun).
  reflexivity.
Qed.

End LimitMore.

(** [sandbox_run] on the demonstration hosts. *)

Lemma load_failure_is_reported_witness :
  sandbox_run Demo.plain 10 "broken.lua" (Some "api.lua") Demo.ready
  = (Done (-1),
     World (Some (push (LString "broken.lua:1: unexpected symbol near <eof>") Demo.vm))
       [LogError "%s" [Some "broken.lua:1: unexpected symbol near <eof>"]]
       [Call_fopen "broken.lua"; Call_fgetc; Call_fclose;
        Call_luaL_loadfile "broken.lua"; Call_lua_tostring (-1)]).
Proof.
  apply (load_failure_is_reported Demo.plain 10 "broken.lua" (Some "api.lua")
           Demo.ready Demo.vm ErrSyntax
           "broken.lua:1: unexpected symbol near <eof>" eq_refl eq_refl eq_refl).
Defined.

Lemma builder_table_is_the_environment_witness :
  (sandbox_run Demo.plain 10 "probe.lua" (Some "api.lua") Demo.ready).1 = Done 0.
Proof.
  pose (built := {[ "x" := LNumber 5 ]} : table).
  destruct (builder_table_is_the_environment Demo.plain 10 "probe.lua" "api.lua"
              Demo.ready Demo.vm 3
              (Heap (tables (l_heap Demo.vm) ++ [built])
                 ((closures (l_heap Demo.vm) ++ [Closure "probe.lua" GLOBALS])
                    ++ [Closure "api.lua" GLOBALS]))
              97 eq_refl eq_refl eq_refl eq_refl
              ltac:(vm_compute; reflexivity) ltac:(vm_compute; reflexivity))
    as (_ & _ & E).
  rewrite E. vm_compute. reflexivity.
Defined.

Lemma builder_result_is_not_checked_witness :
  (sandbox_run Demo.plain 10 "api.lua" (Some "probe.lua") Demo.ready).1 = NoReturn /\
  w_log (sandbox_run Demo.plain 10 "api.lua" (Some "probe.lua") Demo.ready).2 = [].
Proof.
  destruct (builder_result_is_not_checked Demo.plain 10 "api.lua" "probe.lua"
              Demo.ready Demo.vm LNil
              (Heap (tables (l_heap Demo.vm))
                 ((closures (l_heap Demo.vm) ++ [Closure "api.lua" GLOBALS])
                    ++ [Closure "probe.lua" GLOBALS]))
              98 eq_refl eq_refl eq_refl eq_refl eq_refl
              ltac:(intros t; discriminate))
    as (Hres & Hlog & _).
  split; [exact Hres | exact Hlog].
Defined.

Lemma run_leaves_one_value_witness :
  exists x L',
    sandbox_L (sandbox_run Demo.plain 10 "boom.lua" None Demo.ready).2 = Some L' /\
    l_stack L' = x :: l_stack Demo.vm.
Proof.
  apply (run_leaves_one_value Demo.plain 10 "boom.lua" Demo.ready Demo.vm (-1)
           (sandbox_run Demo.plain 10 "boom.lua" None Demo.ready).2
           eq_refl eq_refl eq_refl ltac:(vm_compute; reflexivity)).
Defined.

Lemma run_status_and_log_witness :
  (0 = 0 \/ 0 = -1) /\
  (0 = 0 ->
   w_log (sandbox_run Demo.plain 10 "probe.lua" (Some "api.lua") Demo.ready).2
   = w_log Demo.ready).
Proof.
  apply (run_status_and_log Demo.plain 10 "probe.lua" (Some "api.lua")
           Demo.ready 0
           (sandbox_run Demo.plain 10 "probe.lua" (Some "api.lua") Demo.ready).2
           ltac:(vm_compute; reflexivity)).
Defined.

Lemma limit_spans_runs_witness :
  (sandbox_run Demo.plain 200 "probe.lua" None Demo.ready).1 = Done 0 /\
  exists w2,
    sandbox_run Demo.plain 200 "loop.lua" None
      (sandbox_run Demo.plain 200 "probe.lua" None Demo.ready).2
    = (Done (-1), w2) /\
    w_log w2
    = [LogError "error running %s: %s"
         [Some "loop.lua"; Some "loop.lua:1: instruction limit reached"]].
Proof.
  apply (limit_spans_runs Demo.plain 200 Demo.ready Demo.vm 100 99 1
           "probe.lua" "loop.lua"
           ("probe.lua", 3%nat,
            Heap (tables (l_heap Demo.vm) ++ [∅])
              (closures (l_heap Demo.vm) ++ [Closure "probe.lua" 3]),
            1%nat)
           LNil
           (Heap (tables (l_heap Demo.vm) ++ [∅])
              (closures (l_heap Demo.vm) ++ [Closure "probe.lua" 3]))
           ("loop.lua", 4%nat,
            Heap ((tables (l_heap Demo.vm) ++ [∅]) ++ [∅])
              ((closures (l_heap Demo.vm) ++ [Closure "probe.lua" 3])
                 ++ [Closure "loop.lua" 4]),
            97%nat)
           eq_refl eq_refl eq_refl eq_refl eq_refl eq_refl eq_refl eq_refl
           ltac:(lia) ltac:(lia) eq_refl ltac:(lia)).
Defined.

Lemma no_limit_no_stop_witness :
  hook_state Demo2.vm = (None, 0, 0, 0) /\
  (sandbox_run Demo.plain 5000 "loop.lua" None
     (sandbox_init Demo.plain "demo" Demo2.unlimited Demo.nothing).2).1
  = Unfinished.
Proof.
  apply (no_limit_no_stop Demo.plain "demo" Demo2.unlimited Demo.nothing
           5000 "loop.lua" Demo2.vm
           ("loop.lua", 3%nat,
            Heap (tables (l_heap Demo2.vm) ++ [∅])
              (closures (l_heap Demo2.vm) ++ [Closure "loop.lua" 3]),
            5000%nat)
           ltac:(vm_compute; discriminate)
           ltac:(vm_compute; reflexivity)
           ltac:(vm_compute; reflexivity)
           ltac:(vm_compute; reflexivity)
           ltac:(vm_compute; reflexivity)).
Defined.

(** ** [sandbox_init] *)

Section InitMore.

Variable H : host.
Variables (name : string) (options : censorscope_options_t).

(** With a VM and its table of options: the status, the VM and the error
    sink after [sandbox_init], by the outcome of its two allocations. *)
Lemma sandbox_init_allocations w :
  h_newstate H (vm_quota options) = true ->
  h_options_lua H = true ->
  let r := sandbox_init H name options w in
  (r.1, sandbox_L r.2, w_log r.2)
  = if h_malloc H (strlen (luasrc_dir options ++ "/?.lua") + 1) then
      if h_malloc H (path_size H options) then
        (Done 0,
         Some (set_heap (prepared H name options)
                 (rawset (l_heap (prepared H name options)) 1 "path"
                    (LString
                       (c_str (snprintf_s_semi_s (path_size H options)
                                 (c_str (luasrc_dir options ++ "/?.lua"))
                                 (c_str (c_str (h_lua_path H)))))))),
         w_log w)
      else
        (Done (-1),
         Some (push (LString (c_str (h_lua_path H)))
                 (push (LTable 1) (prepared H name options))),
         w_log w ++ [LogError "error setting packages.path" []])
    else (Done (-1), Some (prepared H name options), w_log w).
Proof.
  intros Hnew Hopt r. subst r.
  rewrite (sandbox_init_prepared H name options w Hnew Hopt). cbv zeta.
  destruct (h_malloc H (strlen _ + 1)); [| reflexivity].
  set (w0 := World _ _ _).
  pose proof (prepend_package_path_run H
                (c_str (luasrc_dir options ++ "/?.lua")) w0
                (prepared H name options) 1 _ eq_refl
                (prepared_package H name options)
                (prepared_path H name options)) as Hrun.
  cbv zeta in Hrun. rewrite bind_run, Hrun. fold (path_size H options).
  destruct (h_malloc H (path_size H options));
    [change (negb (0 =? 0)) with false | change (negb (-1 =? 0)) with true];
    cbv [mbind M_bind mret M_ret log_error free called];
    subst w0; cbn [sandbox_L w_log w_trace fst snd]; reflexivity.
Qed.


(** X16. The budget decides the allocator.  A [max_memory] above 0 creates
    the VM with [lua_newstate] and that budget; 0 or less, a negative number
    included, creates it with [luaL_newstate] and no budget at all.  The
    choice is the first call of [sandbox_init], and the VM keeps it whatever
    happens afterwards. *)
Theorem budget_selects_allocator w :
  let r := sandbox_init H name options w in
  (exists evs, w_trace r.2 = w_trace w ++ newstate_call options :: evs) /\
  (max_memory options <= 0 ->
   newstate_call options = Call_luaL_newstate /\
   forall L, sandbox_L r.2 = Some L -> l_quota L = None) /\
  (0 < max_memory options <= SIZE_MAX ->
   newstate_call options = Call_lua_newstate (max_memory options) /\
   forall L, sandbox_L r.2 = Some L -> l_quota L = Some (max_memory options)).
Proof.
  cbv zeta.
  assert (Hq : forall L, sandbox_L (sandbox_init H name options w).2 = Some L ->
                         l_quota L = vm_quota options).
  { intros L. destruct (h_newstate H (vm_quota options)) eqn:Hnew.
    - destruct (h_options_lua H) eqn:Hopt.
      + pose proof (sandbox_init_allocations w Hnew Hopt) as E. cbv zeta in E.
        destruct (h_malloc H (strlen _ + 1));
          [destruct (h_malloc H (path_size H options)) |];
          injection E as _ E2 _; rewrite E2; intros [= <-]; reflexivity.
      + rewrite (sandbox_init_no_options H name options w Hnew Hopt).
        intros [= <-]. reflexivity.
    - rewrite (sandbox_init_no_vm H name options w Hnew). discriminate. }
  split; [| split].
  - destruct (h_newstate H (vm_quota options)) eqn:Hnew.
    + destruct (sandbox_init_vm H name options w Hnew) as (L & evs & _ & _ & E & _).
      rewrite E. unfold preparation. cbn [app]. eexists. reflexivity.
    + rewrite (sandbox_init_no_vm H name options w Hnew). exists []. reflexivity.
  - intros Hle. unfold newstate_call.
    assert (E : (max_memory options >? 0) = false)
      by (rewrite Z.gtb_ltb; apply Z.ltb_ge; lia).
    rewrite E. split; [reflexivity |].
    intros L HL. rewrite (Hq L HL). unfold vm_quota. rewrite E. reflexivity.
  - intros [Hlo Hhi]. unfold newstate_call.
    assert (E : (max_memory options >? 0) = true)
      by (rewrite Z.gtb_ltb; apply Z.ltb_lt; lia).
    rewrite E, size_wrap_small by (unfold is_size_t; lia).
    split; [reflexivity |].
    intros L HL. rewrite (Hq L HL). unfold vm_quota.
    rewrite E, size_wrap_small by (unfold is_size_t; lia). reflexivity.
Qed.

(** X17. What [sandbox_init] leaves in the VM.  After a 0 the Lua stack is
    empty, the global [SANDBOX_NAME] is the name and [CENSORSCOPE_OPTIONS] a
    table.  The failures after the creation of the VM return without
    popping: the table of options stays on the stack when it could not be
    filled, and the table [package] with its path when the new path could
    not be allocated.  The VM is kept in the sandbox in every case. *)
Theorem init_leaves_in_vm w :
  h_newstate H (vm_quota options) = true ->
  let r := sandbox_init H name options w in
  exists L,
    sandbox_L r.2 = Some L /\
    (r.1 = Done 0 ->
     l_stack L = [] /\
     rawget (l_heap L) GLOBALS "SANDBOX_NAME" = LString (c_str name) /\
     rawget (l_heap L) GLOBALS "CENSORSCOPE_OPTIONS" = LTable 2) /\
    (h_options_lua H = false -> l_stack L = [LTable 2]) /\
    (r.1 = Done (-1) ->
     h_options_lua H = true ->
     h_malloc H (strlen (luasrc_dir options ++ "/?.lua") + 1) = true ->
     l_stack L = [LString (c_str (h_lua_path H)); LTable 1]).
Proof.
  intros Hnew. cbv zeta. destruct (h_options_lua H) eqn:Hopt.
  - pose proof (sandbox_init_allocations w Hnew Hopt) as E. cbv zeta in E.
    destruct (h_malloc H (strlen _ + 1));
      [destruct (h_malloc H (path_size H options)) |];
      injection E as E1 E2 _; rewrite E1, E2; eexists;
      (split; [reflexivity |]).
    + split; [intros _ | split; discriminate].
      split; [reflexivity |]. cbn [l_heap set_heap].
      rewrite !rawget_rawset_other by discriminate.
      unfold rawget, prepared, with_hook, initial_globals, GLOBALS.
      cbn [l_heap tables].
      change ([?a; ?b; ?c] !! 0%nat) with (Some a). cbv beta iota.
      split.
      * rewrite lookup_insert_ne by discriminate.
        rewrite lookup_insert_eq. reflexivity.
      * rewrite lookup_insert_eq. reflexivity.
    + split; [discriminate |]. split; [discriminate |]. reflexivity.
    + split; [discriminate |]. split; discriminate.
  - rewrite (sandbox_init_no_options H name options w Hnew Hopt).
    eexists. split; [reflexivity |].
    split; [discriminate |]. split; [reflexivity | discriminate].
Qed.

End InitMore.

Section NoVm.

Variable H : host.

(** X18. [sandbox_run] does not look whether [sandbox_init] has left a VM.
    Without one, a file the validator rejects still gives -1; a file it
    accepts is handed to [luaL_loadfile] with no VM, and control does not
    come back in any defined way.  Nothing is logged. *)
Theorem run_needs_a_vm fuel filename environment w :
  sandbox_L w = None ->
  let r := sandbox_run H fuel filename environment w in
  ((is_valid_lua_script H filename w).1 = Done 0 ->
   r.1 = Done (-1) /\ w_log r.2 = w_log (is_valid_lua_script H filename w).2) /\
  ((is_valid_lua_script H filename w).1 = Done 1 ->
   r = (NoReturn,
        World None (w_log w)
          (w_trace (validated filename w) ++ [Call_luaL_loadfile filename]))).
Proof.
  intros HL. cbv zeta. split.
  - intros Hv. destruct (is_valid_lua_script H filename w) as [res w1] eqn:Ev.
    cbn [fst snd] in Hv |- *. subst res.
    rewrite (sandbox_run_rejected H fuel filename environment w w1 Ev).
    split; reflexivity.
  - intros Hv. apply is_valid_lua_script_accepts in Hv.
    unfold sandbox_run. cbv [mbind M_bind mret M_ret].
    rewrite Hv. cbv beta iota. change (1 =? 0) with false. cbv beta iota.
    unfold luaL_loadfile, on_L, called, validated.
    cbv [mbind M_bind mret M_ret]. cbn [sandbox_L w_log w_trace].
    rewrite HL. rewrite <- !app_assoc. reflexivity.
Qed.

End NoVm.

(** [sandbox_init] on the demonstration hosts. *)

Lemma budget_selects_allocator_witness :
  (forall L,
     sandbox_L (sandbox_init Demo.plain "demo" Demo.options Demo.nothing).2 = Some L ->
     l_quota L = None) /\
  (forall L,
     sandbox_L (sandbox_init Demo.plain "demo" Demo2.unlimited Demo.nothing).2 = Some L ->
     l_quota L = Some 4096).
Proof.
  split.
  - destruct (budget_selects_allocator Demo.plain "demo" Demo.options Demo.nothing)
      as (_ & Hnone & _).
    destruct Hnone as [_ Hq]; [vm_compute; discriminate | exact Hq].
  - destruct (budget_selects_allocator Demo.plain "demo" Demo2.unlimited Demo.nothing)
      as (_ & _ & Hsome).
    destruct Hsome as [_ Hq];
      [split; vm_compute; [reflexivity | discriminate] | exact Hq].
Defined.

Lemma init_leaves_in_vm_witness :
  (exists L,
     sandbox_L (sandbox_init Demo.plain "demo" Demo.options Demo.nothing).2 = Some L /\
     l_stack L = [] /\
     rawget (l_heap L) GLOBALS "SANDBOX_NAME" = LString "demo") /\
  (exists L,
     sandbox_L (sandbox_init Demo.cramped "demo" Demo.options Demo.nothing).2 = Some L /\
     l_stack L = [LString "./?.lua;/usr/share/lua/5.1/?.lua"; LTable 1]).
Proof.
  split.
  - destruct (init_leaves_in_vm Demo.plain "demo" Demo.options Demo.nothing eq_refl)
      as (L & HL & Hok & _ & _).
    exists L. split; [exact HL |].
    destruct Hok as (Hst & Hname & _); [vm_compute; reflexivity |].
    split; [exact Hst | exact Hname].
  - destruct (init_leaves_in_vm Demo.cramped "demo" Demo.options Demo.nothing eq_refl)
      as (L & HL & _ & _ & Hfail).
    exists L. split; [exact HL |].
    apply Hfail; vm_compute; reflexivity.
Defined.

Lemma run_needs_a_vm_witness :
  (sandbox_run Demo.plain 10 "probe.lua" None Demo.nothing).1 = NoReturn /\
  (sandbox_run Demo.plain 10 "compiled.luac" None Demo.nothing).1 = Done (-1).
Proof.
  destruct (run_needs_a_vm Demo.plain 10 "probe.lua" None Demo.nothing eq_refl)
    as (_ & Hrun).
  destruct (run_needs_a_vm Demo.plain 10 "compiled.luac" None Demo.nothing eq_refl)
    as (Hrej & _).
  split.
  - rewrite Hrun; [reflexivity | vm_compute; reflexivity].
  - apply Hrej. vm_compute. reflexivity.
Defined.

(** ** options.c *)

Ltac proc :=
  cbv [mbind mret Cmdline.Proc_bind Cmdline.Proc_ret Cmdline.get Cmdline.set
       Cmdline.set_sandbox_dir Cmdline.set_luasrc_dir Cmdline.set_max_memory
       Cmdline.set_max_instructions Cmdline.free Cmdline.strdup Cmdline.perror
       Cmdline.fprintf_stderr Cmdline.print_usage Cmdline.exit];
  cbn [Cmdline.options Cmdline.live Cmdline.allocated Cmdline.stderr
       Cmdline.sandbox_dir Cmdline.luasrc_dir Cmdline.max_memory
       Cmdline.max_instructions fst snd is_Some_b negb].

Ltac fields :=
  cbn [Cmdline.options Cmdline.live Cmdline.allocated Cmdline.stderr
       Cmdline.sandbox_dir Cmdline.luasrc_dir Cmdline.max_memory
       Cmdline.max_instructions mbind option_bind].

Section OptionsMore.

Variable C : Cmdline.libc.

Lemma last_snoc_output (l : list Cmdline.output) (x : Cmdline.output) :
  last (l ++ [x]) = Some x.
Proof. apply last_snoc. Qed.

(** A fresh block is none of the live ones. *)
Lemma fresh_block s :
  Cmdline.well_formed s -> Cmdline.live s !! Cmdline.allocated s = None.
Proof.
  intros Hwf. destruct (Cmdline.live s !! Cmdline.allocated s) eqn:E; [| reflexivity].
  exfalso. specialize (Hwf (Cmdline.allocated s) ltac:(eexists; exact E)). lia.
Qed.

(** [censorscope_options_destroy] on a struct that owns its two blocks. *)
Lemma destroy_owned s p q :
  Cmdline.owns s p q ->
  Cmdline.censorscope_options_destroy s
  = (Cmdline.Return 0,
     Cmdline.State (Cmdline.options s) (Cmdline.others s p q)
       (Cmdline.allocated s) (Cmdline.stderr s)).
Proof.
  intros (Hp & Hq & Hne & [a Ha] & [b Hb]).
  unfold Cmdline.censorscope_options_destroy.
  proc. rewrite Hq, Hb. cbv beta iota. proc. rewrite Hp.
  rewrite lookup_delete_ne by congruence. rewrite Ha. reflexivity.
Qed.

(** A block of [strdup] joins the live ones. *)
Lemma well_formed_strdup o lv al er o' er' text :
  Cmdline.well_formed (Cmdline.State o lv al er) ->
  forall gone,
    Cmdline.well_formed
      (Cmdline.State o' (<[al := text]> (delete gone lv)) (S al) er').
Proof.
  intros Hwf gone b. cbn. intros Hb.
  destruct (decide (b = al)) as [-> | Hne]; [lia |].
  rewrite lookup_insert_ne in Hb by congruence.
  destruct (decide (gone = b)) as [-> | Hne'];
    [rewrite lookup_delete_eq in Hb; destruct Hb; discriminate |].
  rewrite lookup_delete_ne in Hb by exact Hne'.
  specialize (Hwf b Hb). cbn in Hwf. lia.
Qed.

(** The loop, from a struct that owns its blocks. *)
Lemma getopt_loop_ending program results : forall s p q o,
  Cmdline.well_formed s ->
  Cmdline.owns s p q ->
  Cmdline.load s = Some o ->
  Cmdline.ending (Cmdline.usage_string program) (Cmdline.others s p q)
    (fold_left (Cmdline.settle1 C) results o)
    (Cmdline.getopt_loop C program results s).
Proof.
  induction results as [| [c optarg] rest IH]; intros s p q o Hwf Hown Hload.
  - cbn. apply (Cmdline.Parsed _ _ _ s p q); auto.
  - pose proof Hown as (Hp & Hq & Hne & [a Ha] & [b Hb]).
    destruct s as [[sd ld mm mi] lv al er].
    cbn in Hp, Hq, Ha, Hb. subst sd ld.
    assert (Ho : o = Options a b mm mi).
    { unfold Cmdline.load in Hload. cbn in Hload.
      rewrite Ha in Hload. cbn in Hload. rewrite Hb in Hload. cbn in Hload.
      congruence. }
    assert (Hpal : p <> al)
      by (specialize (Hwf p ltac:(eexists; exact Ha)); cbn in Hwf; lia).
    assert (Hqal : q <> al)
      by (specialize (Hwf q ltac:(eexists; exact Hb)); cbn in Hwf; lia).
    assert (Hal : lv !! al = None) by exact (fresh_block _ Hwf).
    cbn [Cmdline.getopt_loop fold_left].
    destruct (Ascii.eqb c "h") eqn:Eh.
    { (* -h *)
      proc. rewrite (destroy_owned _ p q) by exact Hown. cbv beta iota.
      eapply Cmdline.Helped; [reflexivity | apply last_snoc_output]. }
    destruct (Ascii.eqb c "i") eqn:Ei.
    { (* -i *)
      assert (Hs : Cmdline.settle1 C o (c, optarg)
                   = Options a b mm (Cmdline.strtol C optarg).1.1)
        by (unfold Cmdline.settle1; rewrite Ho, Ei; reflexivity).
      destruct (Cmdline.strtol C optarg) as [[v first_invalid] errno].
      proc. destruct errno.
      - proc. rewrite (destroy_owned _ p q) by (repeat split; cbn; eauto).
        cbv beta iota. apply Cmdline.Cleaned. reflexivity.
      - destruct (Cmdline.not_at_end first_invalid).
        + proc. apply (Cmdline.Leaked _ _ _ _ p q);
            [repeat split; cbn; eauto | reflexivity | apply last_snoc_output].
        + rewrite Hs.
          apply (IH (Cmdline.State (Cmdline.Struct (Some p) (Some q) mm v) lv al er)
                   p q).
          * exact Hwf.
          * repeat split; cbn; eauto.
          * unfold Cmdline.load. cbn. rewrite Ha. cbn. rewrite Hb. reflexivity. }
    destruct (Ascii.eqb c "l") eqn:El.
    { (* -l *)
      assert (Hs : Cmdline.settle1 C o (c, optarg) = Options a (c_str optarg) mm mi)
        by (unfold Cmdline.settle1; rewrite Ho, Ei, El; reflexivity).
      proc. rewrite Hb. cbv beta iota. proc.
      destruct (Cmdline.strdup_ok C al); proc.
      - rewrite Hs.
        match goal with
        | |- Cmdline.ending _ _ _ (Cmdline.getopt_loop _ _ _ ?s) => set (s2 := s)
        end.
        replace (Cmdline.others _ p q) with (Cmdline.others s2 p al).
        + apply IH.
          * apply (well_formed_strdup _ _ _ _ _ _ _ Hwf).
          * subst s2. unfold Cmdline.owns. fields.
            split; [reflexivity |]. split; [reflexivity |].
            split; [congruence |]. split.
            -- rewrite lookup_insert_ne, lookup_delete_ne by congruence. eauto.
            -- rewrite lookup_insert_eq. eauto.
          * subst s2. unfold Cmdline.load. fields.
            rewrite (lookup_insert_ne _ al p), lookup_delete_ne by congruence.
            rewrite Ha. fields. rewrite lookup_insert_eq. reflexivity.
        + subst s2. unfold Cmdline.others. fields.
          rewrite delete_insert_eq.
          rewrite (delete_id (delete q lv) al)
            by (rewrite lookup_delete_ne by congruence; exact Hal).
          reflexivity.
      - unfold Cmdline.censorscope_options_destroy. proc.
        rewrite lookup_delete_ne by congruence. rewrite Ha.
        apply Cmdline.Cleaned. reflexivity. }
    destruct (Ascii.eqb c "m") eqn:Em.
    { (* -m *)
      assert (Hs : Cmdline.settle1 C o (c, optarg)
                   = Options a b (Cmdline.strtol C optarg).1.1 mi)
        by (unfold Cmdline.settle1; rewrite Ho, Ei, El, Em; reflexivity).
      destruct (Cmdline.strtol C optarg) as [[v first_invalid] errno].
      proc. destruct errno.
      - proc. rewrite (destroy_owned _ p q) by (repeat split; cbn; eauto).
        cbv beta iota. apply Cmdline.Cleaned. reflexivity.
      - destruct (Cmdline.not_at_end first_invalid).
        + proc. rewrite (destroy_owned _ p q) by (repeat split; cbn; eauto).
          cbv beta iota. apply Cmdline.Cleaned. reflexivity.
        + rewrite Hs.
          apply (IH (Cmdline.State (Cmdline.Struct (Some p) (Some q) v mi) lv al er)
                   p q).
          * exact Hwf.
          * repeat split; cbn; eauto.
          * unfold Cmdline.load. cbn. rewrite Ha. cbn. rewrite Hb. reflexivity. }
    destruct (Ascii.eqb c "s") eqn:Es.
    { (* -s *)
      assert (Hs : Cmdline.settle1 C o (c, optarg) = Options (c_str optarg) b mm mi)
        by (unfold Cmdline.settle1; rewrite Ho, Ei, El, Em, Es; reflexivity).
      proc. rewrite Ha. cbv beta iota. proc.
      destruct (Cmdline.strdup_ok C al); proc.
      - rewrite Hs.
        match goal with
        | |- Cmdline.ending _ _ _ (Cmdline.getopt_loop _ _ _ ?s) => set (s2 := s)
        end.
        replace (Cmdline.others _ p q) with (Cmdline.others s2 al q).
        + apply IH.
          * apply (well_formed_strdup _ _ _ _ _ _ _ Hwf).
          * subst s2. unfold Cmdline.owns. fields.
            split; [reflexivity |]. split; [reflexivity |].
            split; [congruence |]. split.
            -- rewrite lookup_insert_eq. eauto.
            -- rewrite lookup_insert_ne, lookup_delete_ne by congruence. eauto.
          * subst s2. unfold Cmdline.load. fields.
            rewrite lookup_insert_eq. fields.
            rewrite (lookup_insert_ne _ al q), lookup_delete_ne by congruence.
            rewrite Hb. reflexivity.
        + subst s2. unfold Cmdline.others. fields.
          rewrite (delete_delete _ al q), delete_insert_eq.
          rewrite (delete_id (delete p lv) al)
            by (rewrite lookup_delete_ne by congruence; exact Hal).
          apply delete_delete.
      - unfold Cmdline.censorscope_options_destroy. proc.
        rewrite lookup_delete_ne by congruence. rewrite Hb.
        apply Cmdline.Cleaned. fields. apply delete_delete. }
    (* anything else *)
    proc. eapply Cmdline.Refused;
      [exact Hown | reflexivity | apply last_snoc_output].
Qed.

(** The whole of [censorscope_options_init]. *)
Lemma censorscope_options_init_ending program results s0 :
  Cmdline.well_formed s0 ->
  Cmdline.ending (Cmdline.usage_string program) (Cmdline.live s0)
    (Cmdline.settle C results)
    (Cmdline.censorscope_options_init C program results s0).
Proof.
  intros Hwf. pose proof (fresh_block _ Hwf) as Hal.
  destruct s0 as [o lv al er]. fields. cbn [Cmdline.live Cmdline.allocated] in Hal.
  unfold Cmdline.censorscope_options_init. proc.
  destruct (Cmdline.strdup_ok C al); proc;
    [| apply Cmdline.Cleaned; reflexivity].
  destruct (Cmdline.strdup_ok C (S al)); proc.
  - match goal with
    | |- Cmdline.ending _ _ _ (Cmdline.getopt_loop _ _ _ ?s) => set (s2 := s)
    end.
    assert (Hsal : lv !! S al = None).
    { destruct (lv !! S al) eqn:E; [| reflexivity].
      specialize (Hwf (S al) ltac:(eexists; exact E)). cbn in Hwf. lia. }
    replace lv with (Cmdline.others s2 al (S al)) at 1.
    + apply getopt_loop_ending.
      * subst s2. intros b. fields. intros Hb.
        destruct (decide (b = S al)) as [-> | Hne]; [lia |].
        rewrite lookup_insert_ne in Hb by congruence.
        destruct (decide (b = al)) as [-> | Hne']; [lia |].
        rewrite lookup_insert_ne in Hb by congruence.
        specialize (Hwf b Hb). cbn in Hwf. lia.
      * subst s2. unfold Cmdline.owns. fields.
        split; [reflexivity |]. split; [reflexivity |].
        split; [lia |]. split.
        -- rewrite lookup_insert_ne by lia. rewrite lookup_insert_eq. eauto.
        -- rewrite lookup_insert_eq. eauto.
      * subst s2. unfold Cmdline.load. fields.
        rewrite (lookup_insert_ne _ (S al) al) by lia.
        rewrite lookup_insert_eq. fields. rewrite lookup_insert_eq. reflexivity.
    + subst s2. unfold Cmdline.others. fields.
      rewrite delete_insert_eq.
      rewrite (delete_id _ (S al))
        by (rewrite lookup_insert_ne by lia; exact Hsal).
      apply delete_insert_id. exact Hal.
  - rewrite lookup_insert_eq. apply Cmdline.Cleaned. fields.
    apply delete_insert_id. exact Hal.
Qed.

(** X19. [censorscope_options_init] frees no block twice, whatever the
    command line and whichever calls of [strdup] fail; it returns 0 or -1, or
    leaves the process with [EXIT_SUCCESS] or [EXIT_FAILURE]. *)
Theorem init_never_frees_twice program results s0 :
  Cmdline.well_formed s0 ->
  let r := Cmdline.censorscope_options_init C program results s0 in
  r.1 <> Cmdline.Undefined /\
  (forall a, r.1 = Cmdline.Return a -> a = 0 \/ a = -1) /\
  (forall status, r.1 = Cmdline.Exit status ->
                  status = Cmdline.EXIT_SUCCESS \/ status = Cmdline.EXIT_FAILURE).
Proof.
  intros Hwf. cbv zeta.
  pose proof (censorscope_options_init_ending program results s0 Hwf) as E.
  inversion E as [s p q _ _ _ _ Er | s _ Er | s p q _ _ _ Er | s _ _ Er
                 | s p q _ _ _ Er];
    cbn [fst]; (split; [discriminate |]); split; intros x Hx;
    inversion Hx; auto.
Qed.

(** X20. After a return of 0 the struct owns two different live blocks, and
    they are all that [censorscope_options_init] has left allocated: the
    blocks of the defaults and of options given more than once are freed.
    The values are the defaults with every option applied in turn. *)
Theorem init_success_owns_two_blocks program results s0 s' :
  Cmdline.well_formed s0 ->
  Cmdline.censorscope_options_init C program results s0 = (Cmdline.Return 0, s') ->
  exists p q,
    Cmdline.owns s' p q /\
    Cmdline.others s' p q = Cmdline.live s0 /\
    Cmdline.load s' = Some (Cmdline.settle C results).
Proof.
  intros Hwf Hrun.
  pose proof (censorscope_options_init_ending program results s0 Hwf) as E.
  rewrite Hrun in E.
  inversion E as [s p q Hown Hothers Hload _ Er | | | |]; subst.
  exists p, q. auto.
Qed.

(** An option of another kind leaves a value alone. *)
Lemma settle1_other (f : censorscope_options_t -> string + Z) (c : ascii) :
  (c = "i"%char /\ f = (fun o => inr (max_instructions o)) \/
   c = "l"%char /\ f = (fun o => inl (luasrc_dir o)) \/
   c = "m"%char /\ f = (fun o => inr (max_memory o)) \/
   c = "s"%char /\ f = (fun o => inl (sandbox_dir o))) ->
  forall post o,
    Forall (fun r : ascii * string => r.1 <> c) post ->
    f (fold_left (Cmdline.settle1 C) post o) = f o.
Proof.
  intros Hc post. induction post as [| [c' x] post IH]; intros o Hpost;
    [reflexivity |].
  inversion Hpost as [| ? ? Hne Hrest]; subst. cbn [fold_left fst] in *.
  rewrite (IH _ Hrest). destruct o as [sd ld mm mi]. unfold Cmdline.settle1.
  apply Ascii.eqb_neq in Hne.
  destruct Hc as [[-> ->] | [[-> ->] | [[-> ->] | [-> ->]]]];
    rewrite ?Hne;
    repeat match goal with
           | |- context [Ascii.eqb c' ?k] => destruct (Ascii.eqb c' k) eqn:?
           end; try reflexivity; congruence.
Qed.

(** X21. The last option of a kind wins: after a return of 0, the value of an
    option is the one of its last occurrence on the command line, the copy
    of its argument for the two directories and what [strtol] made of it for
    the two limits. *)
Theorem last_option_wins program pre c optarg post s0 s' :
  Cmdline.well_formed s0 ->
  Cmdline.censorscope_options_init C program (pre ++ (c, optarg) :: post) s0
  = (Cmdline.Return 0, s') ->
  Forall (fun r : ascii * string => r.1 <> c) post ->
  exists o,
    Cmdline.load s' = Some o /\
    (c = "s"%char -> sandbox_dir o = c_str optarg) /\
    (c = "l"%char -> luasrc_dir o = c_str optarg) /\
    (c = "m"%char -> max_memory o = (Cmdline.strtol C optarg).1.1) /\
    (c = "i"%char -> max_instructions o = (Cmdline.strtol C optarg).1.1).
Proof.
  intros Hwf Hrun Hpost.
  pose proof (censorscope_options_init_ending program
                (pre ++ (c, optarg) :: post) s0 Hwf) as E.
  rewrite Hrun in E.
  inversion E as [s p q _ _ Hload _ Er | | | |]; subst.
  eexists. split; [exact Hload |].
  unfold Cmdline.settle. rewrite fold_left_app. cbn [fold_left].
  set (o := fold_left _ pre _). destruct o as [sd ld mm mi].
  repeat split; intros ->.
  - pose proof (settle1_other (fun o => inl (sandbox_dir o)) "s"
                  ltac:(auto 6) post
                  (Cmdline.settle1 C (Options sd ld mm mi) ("s"%char, optarg))
                  Hpost) as Hk.
    cbv beta in Hk. injection Hk as Hk. exact Hk.
  - pose proof (settle1_other (fun o => inl (luasrc_dir o)) "l"
                  ltac:(auto 6) post
                  (Cmdline.settle1 C (Options sd ld mm mi) ("l"%char, optarg))
                  Hpost) as Hk.
    cbv beta in Hk. injection Hk as Hk. exact Hk.
  - pose proof (settle1_other (fun o => inr (max_memory o)) "m"
                  ltac:(auto 6) post
                  (Cmdline.settle1 C (Options sd ld mm mi) ("m"%char, optarg))
                  Hpost) as Hk.
    cbv beta in Hk. injection Hk as Hk. exact Hk.
  - pose proof (settle1_other (fun o => inr (max_instructions o)) "i"
                  ltac:(auto 6) post
                  (Cmdline.settle1 C (Options sd ld mm mi) ("i"%char, optarg))
                  Hpost) as Hk.
    cbv beta in Hk. injection Hk as Hk. exact Hk.
Qed.

(** X22. A return of -1 comes with every block of
    [censorscope_options_init] freed, on every path but one: after the
    message about an invalid instruction count the two blocks of the struct
    are still allocated. *)
Theorem failure_frees_but_for_instruction_count program results s0 s' :
  Cmdline.well_formed s0 ->
  Cmdline.censorscope_options_init C program results s0 = (Cmdline.Return (-1), s') ->
  Cmdline.live s' = Cmdline.live s0 \/
  (exists p q,
     Cmdline.owns s' p q /\ Cmdline.others s' p q = Cmdline.live s0 /\
     last (Cmdline.stderr s')
     = Some (Cmdline.Fprintf ("Invalid instruction count." ++ Cmdline.nl))).
Proof.
  intros Hwf Hrun.
  pose proof (censorscope_options_init_ending program results s0 Hwf) as E.
  rewrite Hrun in E.
  inversion E as [| s Hlive Er | s p q Hown Hothers Hlast Er | |]; subst.
  - left. assumption.
  - right. exists p, q. auto.
Qed.

(** X23. The same invalid number, two ways out.  In the loop, a number
    [strtol] reads only in part makes [-i] return -1 with the part it read
    already stored and both blocks still allocated, and makes [-m] return
    -1 after [censorscope_options_destroy]. *)
Theorem invalid_numbers_differ program optarg rest s p q v first_invalid :
  Cmdline.owns s p q ->
  Cmdline.strtol C optarg = (v, first_invalid, false) ->
  Cmdline.not_at_end first_invalid = true ->
  let ri := Cmdline.getopt_loop C program (("i"%char, optarg) :: rest) s in
  let rm := Cmdline.getopt_loop C program (("m"%char, optarg) :: rest) s in
  ri.1 = Cmdline.Return (-1) /\
  Cmdline.live ri.2 = Cmdline.live s /\
  Cmdline.max_instructions (Cmdline.options ri.2) = v /\
  rm.1 = Cmdline.Return (-1) /\
  Cmdline.live rm.2 = Cmdline.others s p q /\
  Cmdline.max_memory (Cmdline.options rm.2) = v.
Proof.
  intros Hown Hs Hinv. cbv zeta. cbn [Cmdline.getopt_loop].
  change (Ascii.eqb "i" "h") with false. change (Ascii.eqb "i" "i") with true.
  change (Ascii.eqb "m" "h") with false. change (Ascii.eqb "m" "i") with false.
  change (Ascii.eqb "m" "l") with false. change (Ascii.eqb "m" "m") with true.
  cbv iota. rewrite Hs. proc. rewrite Hinv. proc.
  destruct Hown as (Hp & Hq & Hne & Ha & Hb).
  rewrite (destroy_owned _ p q) by (repeat split; fields; auto).
  cbn [fst snd Cmdline.live Cmdline.options Cmdline.max_memory]. auto 7.
Qed.

(** X24. The process exits only after the usage, as the last thing on
    [stderr].  With [EXIT_SUCCESS] every block of
    [censorscope_options_init] is freed first; with [EXIT_FAILURE] none
    is. *)
Theorem exit_follows_usage program results s0 status s' :
  Cmdline.well_formed s0 ->
  Cmdline.censorscope_options_init C program results s0 = (Cmdline.Exit status, s') ->
  last (Cmdline.stderr s') = Some (Cmdline.Fprintf (Cmdline.usage_string program)) /\
  (status = Cmdline.EXIT_SUCCESS /\ Cmdline.live s' = Cmdline.live s0 \/
   status = Cmdline.EXIT_FAILURE /\
   exists p q, Cmdline.owns s' p q /\ Cmdline.others s' p q = Cmdline.live s0).
Proof.
  intros Hwf Hrun.
  pose proof (censorscope_options_init_ending program results s0 Hwf) as E.
  rewrite Hrun in E.
  inversion E as [| | | s Hlive Hlast Er | s p q Hown Hothers Hlast Er]; subst.
  - split; [exact Hlast | left; auto].
  - split; [exact Hlast | right; split; [reflexivity | eauto]].
Qed.

(** X25. [censorscope_options_destroy] after a return of 0 frees the two
    blocks and gives the memory back as [censorscope_options_init] found
    it; it leaves the two pointers in the struct, so that a second call
    frees a block twice. *)
Theorem destroy_once program results s0 s' :
  Cmdline.well_formed s0 ->
  Cmdline.censorscope_options_init C program results s0 = (Cmdline.Return 0, s') ->
  exists s'',
    Cmdline.censorscope_options_destroy s' = (Cmdline.Return 0, s'') /\
    Cmdline.live s'' = Cmdline.live s0 /\
    Cmdline.options s'' = Cmdline.options s' /\
    (Cmdline.censorscope_options_destroy s'').1 = Cmdline.Undefined.
Proof.
  intros Hwf Hrun.
  pose proof (censorscope_options_init_ending program results s0 Hwf) as E.
  rewrite Hrun in E.
  inversion E as [s p q Hown Hothers Hload _ Er | | | |]; subst.
  rewrite (destroy_owned s' p q Hown). eexists. split; [reflexivity |].
  fields. split; [exact Hothers |]. split; [reflexivity |].
  destruct Hown as (Hp & Hq & Hne & _ & _).
  unfold Cmdline.censorscope_options_destroy. proc. rewrite Hq.
  unfold Cmdline.others.
  rewrite lookup_delete_ne by exact Hne. rewrite lookup_delete_eq. reflexivity.
Qed.

(** Nothing but [exit] ends the process. *)
Lemma destroy_no_exit s status s' :
  Cmdline.censorscope_options_destroy s <> (Cmdline.Exit status, s').
Proof.
  unfold Cmdline.censorscope_options_destroy. proc.
  destruct (Cmdline.luasrc_dir (Cmdline.options s)) as [q |];
    [destruct (Cmdline.live s !! q) |]; fields; try discriminate;
    (destruct (Cmdline.sandbox_dir (Cmdline.options s)) as [p |];
     [match goal with
      | |- context [match ?m !! p with _ => _ end] => destruct (m !! p)
      end |]); discriminate.
Qed.

Lemma getopt_loop_no_exit program results :
  Forall (fun r : ascii * string =>
            r.1 = "i"%char \/ r.1 = "l"%char \/ r.1 = "m"%char \/ r.1 = "s"%char)
    results ->
  forall s status s',
    Cmdline.getopt_loop C program results s <> (Cmdline.Exit status, s').
Proof.
  induction 1 as [| [c optarg] rest Hc _ IH]; intros s status s';
    [discriminate |].
  cbn [Cmdline.getopt_loop]. cbn [fst] in Hc.
  destruct Hc as [-> | [-> | [-> | ->]]];
    repeat match goal with
           | |- context [Ascii.eqb ?a ?b] =>
               let v := eval vm_compute in (Ascii.eqb a b) in
               change (Ascii.eqb a b) with v
           end; cbv iota.
  - destruct (Cmdline.strtol C optarg) as [[v first_invalid] errno].
    proc. destruct errno; proc.
    + match goal with
      | |- context [Cmdline.censorscope_options_destroy ?t] =>
          pose proof (destroy_no_exit t) as Hd;
          destruct (Cmdline.censorscope_options_destroy t) as [[a | st |] t']
      end; try discriminate.
      exfalso. exact (Hd st t' eq_refl).
    + destruct (Cmdline.not_at_end first_invalid); proc; [discriminate | apply IH].
  - proc.
    destruct (Cmdline.luasrc_dir (Cmdline.options s)) as [q |];
      [destruct (Cmdline.live s !! q) |]; fields; try discriminate;
      destruct (Cmdline.strdup_ok C (Cmdline.allocated s)); proc; try apply IH;
      match goal with
      | |- context [Cmdline.censorscope_options_destroy ?t] =>
          pose proof (destroy_no_exit t) as Hd;
          destruct (Cmdline.censorscope_options_destroy t) as [[a | st |] t']
      end; try discriminate; exfalso; exact (Hd st t' eq_refl).
  - destruct (Cmdline.strtol C optarg) as [[v first_invalid] errno].
    proc. destruct errno; proc;
      [| destruct (Cmdline.not_at_end first_invalid); proc; [| apply IH]];
      match goal with
      | |- context [Cmdline.censorscope_options_destroy ?t] =>
          pose proof (destroy_no_exit t) as Hd;
          destruct (Cmdline.censorscope_options_destroy t) as [[a | st |] t']
      end; try discriminate; exfalso; exact (Hd st t' eq_refl).
  - proc.
    destruct (Cmdline.sandbox_dir (Cmdline.options s)) as [p |];
      [destruct (Cmdline.live s !! p) |]; fields; try discriminate;
      destruct (Cmdline.strdup_ok C (Cmdline.allocated s)); proc; try apply IH;
      match goal with
      | |- context [Cmdline.censorscope_options_destroy ?t] =>
          pose proof (destroy_no_exit t) as Hd;
          destruct (Cmdline.censorscope_options_destroy t) as [[a | st |] t']
      end; try discriminate; exfalso; exact (Hd st t' eq_refl).
Qed.

(** X26. [censorscope_options_init] ends the process only on [-h] or on an
    option [getopt_long] does not know: when every option is one of [-i],
    [-l], [-m] and [-s], it returns, whatever their arguments, whichever
    allocations fail and whatever state it starts from. *)
Theorem exit_only_on_request program results s0 :
  Forall (fun r : ascii * string =>
            r.1 = "i"%char \/ r.1 = "l"%char \/ r.1 = "m"%char \/ r.1 = "s"%char)
    results ->
  forall status s',
    Cmdline.censorscope_options_init C program results s0
    <> (Cmdline.Exit status, s').
Proof.
  intros Hknown status s'. unfold Cmdline.censorscope_options_init. proc.
  destruct (Cmdline.strdup_ok C (Cmdline.allocated s0)); proc; [| discriminate].
  destruct (Cmdline.strdup_ok C (S (Cmdline.allocated s0))); proc.
  - apply getopt_loop_no_exit. exact Hknown.
  - rewrite lookup_insert_eq. discriminate.
Qed.

End OptionsMore.

(** The command line [censorscope -l lib -m 4096 -l src] and others, from a
    process that has allocated nothing. *)

Lemma start_well_formed : Cmdline.well_formed DemoCli.start.
Proof. intros b [x Hx]. cbn in Hx. rewrite lookup_empty in Hx. discriminate. Qed.

Example options_are_parsed :
  Cmdline.load
    (Cmdline.censorscope_options_init DemoCli.generous "censorscope"
       DemoCli.twice DemoCli.start).2
  = Some (Options "sandbox" "src" 4096 0).
Proof. vm_compute. reflexivity. Qed.

Lemma init_never_frees_twice_witness :
  (Cmdline.censorscope_options_init DemoCli.short "censorscope"
     DemoCli.twice DemoCli.start).1 <> Cmdline.Undefined.
Proof.
  destruct (init_never_frees_twice DemoCli.short "censorscope" DemoCli.twice
              DemoCli.start start_well_formed) as (Hsafe & _).
  exact Hsafe.
Defined.

Lemma init_success_owns_two_blocks_witness :
  exists p q,
    Cmdline.owns
      (Cmdline.censorscope_options_init DemoCli.generous "censorscope"
         DemoCli.twice DemoCli.start).2 p q /\
    Cmdline.others
      (Cmdline.censorscope_options_init DemoCli.generous "censorscope"
         DemoCli.twice DemoCli.start).2 p q = ∅.
Proof.
  destruct (init_success_owns_two_blocks DemoCli.generous "censorscope"
              DemoCli.twice DemoCli.start
              (Cmdline.censorscope_options_init DemoCli.generous "censorscope"
                 DemoCli.twice DemoCli.start).2
              start_well_formed ltac:(vm_compute; reflexivity))
    as (p & q & Hown & Hothers & _).
  exists p, q. split; [exact Hown | exact Hothers].
Defined.

Lemma last_option_wins_witness :
  exists o,
    Cmdline.load
      (Cmdline.censorscope_options_init DemoCli.generous "censorscope"
         DemoCli.twice DemoCli.start).2 = Some o /\
    luasrc_dir o = "src".
Proof.
  destruct (last_option_wins DemoCli.generous "censorscope"
              [("l"%char, "lib"); ("m"%char, "4096")] "l"%char "src" []
              DemoCli.start
              (Cmdline.censorscope_options_init DemoCli.generous "censorscope"
                 DemoCli.twice DemoCli.start).2
              start_well_formed ltac:(vm_compute; reflexivity)
              ltac:(constructor))
    as (o & Hload & _ & Hl & _).
  exists o. split; [exact Hload | exact (Hl eq_refl)].
Defined.

Lemma failure_frees_but_for_instruction_count_witness :
  Cmdline.live
    (Cmdline.censorscope_options_init DemoCli.generous "censorscope"
       [("i"%char, "12abc")] DemoCli.start).2 = ∅ \/
  (exists p q,
     Cmdline.owns
       (Cmdline.censorscope_options_init DemoCli.generous "censorscope"
          [("i"%char, "12abc")] DemoCli.start).2 p q /\
     Cmdline.others
       (Cmdline.censorscope_options_init DemoCli.generous "censorscope"
          [("i"%char, "12abc")] DemoCli.start).2 p q = ∅ /\
     last (Cmdline.stderr
             (Cmdline.censorscope_options_init DemoCli.generous "censorscope"
                [("i"%char, "12abc")] DemoCli.start).2)
     = Some (Cmdline.Fprintf ("Invalid instruction count." ++ Cmdline.nl))).
Proof.
  apply (failure_frees_but_for_instruction_count DemoCli.generous "censorscope"
           [("i"%char, "12abc")] DemoCli.start _ start_well_formed).
  vm_compute. reflexivity.
Defined.

(** The leak is there: both blocks are live after the message. *)
Example invalid_instruction_count_leaks :
  map_to_list
    (Cmdline.live
       (Cmdline.censorscope_options_init DemoCli.generous "censorscope"
          [("i"%char, "12abc")] DemoCli.start).2)
  = [(1%nat, "luasrc"); (0%nat, "sandbox")].
Proof. vm_compute. reflexivity. Qed.

Lemma invalid_numbers_differ_witness :
  let s := (Cmdline.censorscope_options_init DemoCli.generous "censorscope"
              [] DemoCli.start).2 in
  Cmdline.live
    (Cmdline.getopt_loop DemoCli.generous "censorscope" [("i"%char, "12abc")] s).2
  = Cmdline.live s /\
  Cmdline.live
    (Cmdline.getopt_loop DemoCli.generous "censorscope" [("m"%char, "12abc")] s).2
  = ∅.
Proof.
  cbv zeta.
  destruct (invalid_numbers_differ DemoCli.generous "censorscope" "12abc" []
              (Cmdline.censorscope_options_init DemoCli.generous "censorscope"
                 [] DemoCli.start).2
              0%nat 1%nat 12 "abc"
              ltac:(vm_compute; repeat split; eauto; discriminate)
              eq_refl eq_refl)
    as (_ & Hi & _ & _ & Hm & _).
  split; [exact Hi |]. rewrite Hm. vm_compute. reflexivity.
Defined.

Lemma exit_follows_usage_witness :
  last (Cmdline.stderr
          (Cmdline.censorscope_options_init DemoCli.generous "censorscope"
             [("s"%char, "box"); ("h"%char, "")] DemoCli.start).2)
  = Some (Cmdline.Fprintf (Cmdline.usage_string "censorscope")).
Proof.
  destruct (exit_follows_usage DemoCli.generous "censorscope"
              [("s"%char, "box"); ("h"%char, "")] DemoCli.start
              Cmdline.EXIT_SUCCESS
              (Cmdline.censorscope_options_init DemoCli.generous "censorscope"
                 [("s"%char, "box"); ("h"%char, "")] DemoCli.start).2
              start_well_formed ltac:(vm_compute; reflexivity))
    as (Hlast & _).
  exact Hlast.
Defined.

Lemma destroy_once_witness :
  exists s'',
    Cmdline.censorscope_options_destroy
      (Cmdline.censorscope_options_init DemoCli.generous "censorscope"
         DemoCli.twice DemoCli.start).2
    = (Cmdline.Return 0, s'') /\
    Cmdline.live s'' = ∅ /\
    (Cmdline.censorscope_options_destroy s'').1 = Cmdline.Undefined.
Proof.
  destruct (destroy_once DemoCli.generous "censorscope" DemoCli.twice
              DemoCli.start
              (Cmdline.censorscope_options_init DemoCli.generous "censorscope"
                 DemoCli.twice DemoCli.start).2
              start_well_formed ltac:(vm_compute; reflexivity))
    as (s'' & Hrun & Hlive & _ & Htwice).
  exists s''. split; [exact Hrun |]. split; [exact Hlive | exact Htwice].
Defined.

Lemma exit_only_on_request_witness :
  Cmdline.censorscope_options_init DemoCli.short "censorscope"
    DemoCli.twice DemoCli.start
  <> (Cmdline.Exit Cmdline.EXIT_FAILURE,
      (Cmdline.censorscope_options_init DemoCli.short "censorscope"
         DemoCli.twice DemoCli.start).2).
Proof.
  apply (exit_only_on_request DemoCli.short "censorscope" DemoCli.twice
           DemoCli.start).
  unfold DemoCli.twice.
  repeat (constructor; [cbn; auto 6 |]). constructor.
Defined.
